(** * Brand-mention correlation demo: a shallow embedding of [Example.py]

    The development follows the components of the script that carry
    logic: the mention labeler ([label_mentions]), the Wikipedia page
    resolver ([has_wikipedia_page]) and the association tester
    ([chi_square_on_haswiki]), then the prompt builder and the response
    seeder ([build_prompts], [seed_sample_responses]), the summarizer
    ([summarize]), the per-brand lookup ([compute_haswiki_flags]) and the
    way [main] chains them.  The definitions come first, the properties
    after them.

    Conventions.
    - A Python [str] is a [string]; a character is read as the code point
      U+0000..U+00FF that its eight bits denote, and [lower], [isspace]
      follow Python's tables on that range.
    - A Python [float] is a real number of the Standard Library where only
      the exact value matters (rounding is then abstracted away), and an IEEE
      754 binary64 number in [Tester64], where the rounding is the point.
    - External libraries ([wikipedia], [scipy]) are parameters of the
      sections that use them. *)

From Stdlib Require Import Bool Arith ZArith Lia List Ascii String.
From Stdlib Require Import Permutation Sorted.
From Stdlib Require Import Reals Lra.
From Stdlib Require OrderedTypeEx.
From Stdlib Require PrimFloat FloatOps SpecFloat.
Import ListNotations.

Open Scope string_scope.

(* ================================================================== *)
(** * Python string operations *)
(* ================================================================== *)

Module PyStr.

(** [str.lower] on one code point below U+0100: the Basic Latin capitals and
    the Latin-1 capitals U+00C0..U+00DE, the multiplication sign U+00D7
    excepted, move up by 32; everything else is unchanged. *)
Definition lower_char (c : ascii) : ascii :=
  let n := nat_of_ascii c in
  if (((65 <=? n) && (n <=? 90))
      || ((192 <=? n) && (n <=? 222) && negb (n =? 215)))%nat
  then ascii_of_nat (n + 32)
  else c.

Fixpoint lower (s : string) : string :=
  match s with
  | EmptyString => EmptyString
  | String c s' => String (lower_char c) (lower s')
  end.

(** [str.isspace] on one code point below U+0100, which is also the set that
    [str.strip] removes when called without argument. *)
Definition isspace (c : ascii) : bool :=
  let n := nat_of_ascii c in
  (((9 <=? n) && (n <=? 13)) || ((28 <=? n) && (n <=? 32))
   || (n =? 133) || (n =? 160))%nat.

Fixpoint lstrip (s : string) : string :=
  match s with
  | EmptyString => EmptyString
  | String c s' => if isspace c then lstrip s' else s
  end.

Fixpoint rstrip (s : string) : string :=
  match s with
  | EmptyString => EmptyString
  | String c s' =>
      match rstrip s' with
      | EmptyString => if isspace c then EmptyString else String c EmptyString
      | r => String c r
      end
  end.

Definition strip (s : string) : string := rstrip (lstrip s).

(** [sub in s] for two strings. *)
Fixpoint contains (sub s : string) : bool :=
  if prefix sub s then true
  else match s with
       | EmptyString => false
       | String _ s' => contains sub s'
       end.

(** [s.eq("")] / [s == ""]. *)
Definition is_empty (s : string) : bool :=
  match s with EmptyString => true | _ => false end.

(** The mathematical reading of [sub in s]. *)
Definition substring (sub s : string) : Prop :=
  exists pre post, s = pre ++ sub ++ post.

(** A string all of whose characters are white space. *)
Fixpoint all_space (s : string) : bool :=
  match s with
  | EmptyString => true
  | String c s' => isspace c && all_space s'
  end.

End PyStr.

(* ================================================================== *)
(** * Mention labeler ([label_mentions]) *)
(* ================================================================== *)

Module Labeler.
Import PyStr.

(** A row of the frame as [label_mentions] receives it.  A [Response] cell
    may be missing ([NaN]/[None]), which is what [fillna] is there for. *)
Record raw_row : Type := mkRaw {
  raw_Brand    : string;
  raw_Category : string;
  raw_Prompt   : string;
  raw_Response : option string
}.

(** A row of the frame that [label_mentions] returns: the columns of the copy
    plus [ResponseEmpty] and [Mentioned]. *)
Record row : Type := mkRow {
  Brand         : string;
  Category      : string;
  Prompt        : string;
  Response      : string;
  ResponseEmpty : bool;
  Mentioned     : Z
}.

(** [.fillna("").astype(str)] on one cell. *)
Definition fillna (cell : option string) : string :=
  match cell with
  | Some s => s
  | None => ""
  end.

(** [.str.strip().eq("")] on one cell. *)
Definition response_empty (response : string) : bool :=
  is_empty (strip response).

(** The lambda of [df.apply(..., axis=1)]. *)
Definition mention_lambda (brand response : string) : Z :=
  if contains (lower brand) (lower response) then 1%Z else 0%Z.

(** [np.where(cond, 0, x)] on one position. *)
Definition np_where_zero (cond : bool) (x : Z) : Z :=
  if cond then 0%Z else x.

Definition label_row (r : raw_row) : row :=
  let response := fillna (raw_Response r) in
  let empty := response_empty response in
  let mentioned := mention_lambda (raw_Brand r) response in
  {| Brand := raw_Brand r;
     Category := raw_Category r;
     Prompt := raw_Prompt r;
     Response := response;
     ResponseEmpty := empty;
     Mentioned := np_where_zero empty mentioned |}.

Definition label_mentions (df : list raw_row) : list row :=
  map label_row df.

End Labeler.

(* ================================================================== *)
(** * Page resolver ([has_wikipedia_page]) *)
(* ================================================================== *)

Module Resolver.
Import PyStr.
Local Open Scope list_scope.

(** ** Exceptions, outcomes and the call log *)

(** The exceptions a lookup can end in; all three are subclasses of
    [Exception].  [OtherException] stands for every subclass of [Exception]
    that is neither of the first two (network errors, time-outs, ...). *)
Inductive exn : Type :=
| DisambiguationError (options : list string)
| PageError
| OtherException.

Inductive outcome (A : Type) : Type :=
| Ret (a : A)
| Raise (e : exn).
Arguments Ret {A} a.
Arguments Raise {A} e.

(** Where in [has_wikipedia_page] a page is requested: the candidate loop
    (line 64), the disambiguation loop (line 75), the search loop
    (line 89). *)
Inductive call_site : Type := Direct | Disambiguated | SearchHit.

(** One request sent to the service, with its answer. *)
Inductive event : Type :=
| EvPage (site : call_site) (title : string) (res : outcome string)
| EvSearch (query : string) (res : outcome (list string)).

(** The value [has_wikipedia_page] returns: [(1, page.title)] or
    [(0, None)]. *)
Definition resolution : Type := (Z * option string)%type.

(** ** The alias table *)

Definition WIKI_ALIASES : list (string * list string) :=
  [ ("HP",      ["HP Inc."; "Hewlett-Packard"]);
    ("Apple",   ["Apple Inc."]);
    ("Dell",    ["Dell (company)"; "Dell Inc."]);
    ("Lenovo",  ["Lenovo"]);
    ("Asus",    ["Asus"]);
    ("Jabra",   ["Jabra"; "Jabra (company)"]);
    ("Samsung", ["Samsung Electronics"; "Samsung"]) ].

(** [d[key]] when present. *)
Fixpoint dict_lookup {V : Type} (d : list (string * V)) (key : string)
  : option V :=
  match d with
  | [] => None
  | (k, v) :: d' => if String.eqb k key then Some v else dict_lookup d' key
  end.

(** [d.get(key, default)]. *)
Definition dict_get {V : Type} (d : list (string * V)) (key : string)
    (default : V) : V :=
  match dict_lookup d key with
  | Some v => v
  | None => default
  end.

Definition mem (x : string) (l : list string) : bool :=
  existsb (String.eqb x) l.

(** [list(dict.fromkeys(l))]: the keys are inserted one after the other; a
    key already present keeps its place. *)
Definition insert_key (keys : list string) (k : string) : list string :=
  if mem k keys then keys else keys ++ [k].

Definition dict_fromkeys (l : list string) : list string :=
  fold_left insert_key l [].

Definition titles_to_try (brand : string) : list string :=
  dict_fromkeys (dict_get WIKI_ALIASES brand [brand] ++ [brand]).

(** ** Ranking of disambiguation options *)

(** The sort key [(brand.lower() not in x.lower(), len(x))]. *)
Definition sort_key (brand x : string) : bool * nat :=
  (negb (contains (lower brand) (lower x)), String.length x).

(** [k1 < k2] on such tuples: [False < True], then the lengths. *)
Definition key_lt (k1 k2 : bool * nat) : bool :=
  match k1, k2 with
  | (b1, n1), (b2, n2) =>
      if Bool.eqb b1 b2 then (n1 <? n2)%nat else negb b1 && b2
  end.

Definition key_le (k1 k2 : bool * nat) : bool := negb (key_lt k2 k1).

(** [sorted(l, key=...)]: a stable sort, here by insertion. *)
Fixpoint insert_by (key : string -> bool * nat) (x : string)
    (l : list string) : list string :=
  match l with
  | [] => [x]
  | y :: l' =>
      if key_lt (key y) (key x) then y :: insert_by key x l'
      else x :: l
  end.

Definition sorted_by (key : string -> bool * nat) (l : list string)
  : list string :=
  fold_right (insert_by key) [] l.

Definition rank_options (brand : string) (options : list string)
  : list string :=
  sorted_by (sort_key brand) options.

(** [x] may stand before [y] in a list sorted by [key]. *)
Definition key_ordered (key : string -> bool * nat) (x y : string) : Prop :=
  key_le (key x) (key y) = true.

(** [x] has sort key [k] (neither is below the other). *)
Definition has_key (key : string -> bool * nat) (k : bool * nat)
    (x : string) : bool :=
  negb (key_lt (key x) k) && negb (key_lt k (key x)).

(** ** Reading a log *)

Definition found (t : string) : resolution := (1%Z, Some t).

(** The value returned for the outcome of a search for a page. *)
Definition resolution_of (r : option string) : resolution :=
  match r with
  | Some t => (1%Z, Some t)
  | None => (0%Z, None)
  end.

(** The titles requested by the candidate loop, in the order of the
    requests. *)
Fixpoint direct_titles (evs : list event) : list string :=
  match evs with
  | [] => []
  | EvPage Direct t _ :: evs' => t :: direct_titles evs'
  | _ :: evs' => direct_titles evs'
  end.

(** The log ends with a request that obtained the page titled [ttl]. *)
Definition ends_with_page (evs : list event) (ttl : string) : Prop :=
  exists pre site t, evs = pre ++ [EvPage site t (Ret ttl)].

(** ** The resolver over an arbitrary service *)

Section WithService.

(** The state of the outside world (the encyclopedia, the network), and the
    two capabilities of the [wikipedia] package that the resolver uses:
    [wikipedia.page(title, auto_suggest=False)], of which only [.title] is
    read, and [wikipedia.search(query)]. *)
Variable World : Type.
Variable wiki_page : string -> World -> outcome string * World.
Variable wiki_search : string -> World -> outcome (list string) * World.

(** Computations that may raise, change the world and log their requests. *)
Definition M (A : Type) : Type := World -> outcome A * World * list event.

Definition ret {A} (a : A) : M A := fun w => (Ret a, w, []).

Definition log_before {A} (l : list event)
    (x : outcome A * World * list event) : outcome A * World * list event :=
  let '(r, w, l') := x in (r, w, l ++ l').

Definition bind {A B} (m : M A) (k : A -> M B) : M B :=
  fun w =>
    match m w with
    | (Ret a, w1, l1) => log_before l1 (k a w1)
    | (Raise e, w1, l1) => (Raise e, w1, l1)
    end.

(** [try: m  except ...: h]: [h e] is the body of the first clause that
    matches [e], or [None] when no clause does. *)
Definition try_except {A} (m : M A) (h : exn -> option (M A)) : M A :=
  fun w =>
    match m w with
    | (Ret a, w1, l1) => (Ret a, w1, l1)
    | (Raise e, w1, l1) =>
        match h e with
        | Some k => log_before l1 (k w1)
        | None => (Raise e, w1, l1)
        end
    end.

Notation "x <- m ;; k" := (bind m (fun x => k))
  (at level 61, m at next level, right associativity).

Definition page (site : call_site) (title : string) : M string :=
  fun w =>
    let (r, w') := wiki_page title w in (r, w', [EvPage site title r]).

Definition search (query : string) : M (list string) :=
  fun w =>
    let (r, w') := wiki_search query w in (r, w', [EvSearch query r]).

(** [except Exception: continue]. *)
Definition except_Exception_continue {A} (e : exn) : option (M (option A)) :=
  Some (ret None).

(** [page = wikipedia.page(...); return 1, page.title]: [Some v] stands for
    [return v], [None] for falling through to the next iteration. *)
Definition fetch_and_return (site : call_site) (title : string)
  : M (option resolution) :=
  t <- page site title ;; ret (Some (1%Z, Some t)).

(** The loops of lines 73-78 and 87-92, which differ in the list only. *)
Fixpoint try_fetch_each (site : call_site) (cands : list string)
  : M (option resolution) :=
  match cands with
  | [] => ret None
  | cand :: rest =>
      r <- try_except (fetch_and_return site cand) except_Exception_continue ;;
      match r with
      | Some v => ret (Some v)
      | None => try_fetch_each site rest
      end
  end.

(** The three [except] clauses of lines 66-82. *)
Definition direct_handlers (brand : string) (e : exn)
  : option (M (option resolution)) :=
  match e with
  | DisambiguationError options =>
      let candidates := rank_options brand options in
      Some (try_fetch_each Disambiguated (firstn 3 candidates))
  | PageError => Some (ret None)
  | _ => Some (ret None)
  end.

(** The loop of lines 62-82. *)
Fixpoint try_titles (brand : string) (titles : list string)
  : M (option resolution) :=
  match titles with
  | [] => ret None
  | title :: rest =>
      r <- try_except (fetch_and_return Direct title) (direct_handlers brand) ;;
      match r with
      | Some v => ret (Some v)
      | None => try_titles brand rest
      end
  end.

(** Lines 85-94. *)
Definition search_fallback (brand : string) : M (option resolution) :=
  try_except
    (hits <- search brand ;; try_fetch_each SearchHit (firstn 5 hits))
    (fun _ => Some (ret None)).

(** What follows the candidate loop: lines 84-96. *)
Definition after_titles (brand : string) (r : option resolution)
  : M resolution :=
  match r with
  | Some v => ret v
  | None =>
      r2 <- search_fallback brand ;;
      match r2 with
      | Some v => ret v
      | None => ret (0%Z, None)
      end
  end.

Definition has_wikipedia_page (brand : string) : M resolution :=
  r <- try_titles brand (titles_to_try brand) ;; after_titles brand r.

(** [fetch_run site cands w evs r w']: starting in world [w], the titles of
    [cands] are requested from [site] one after the other, in the order of
    [cands], as long as the requests fail; the first request that obtains a
    page ends the run with [r = Some] its title, and nothing is requested
    after it; [r = None] means that every title of [cands] was requested and
    failed.  [evs] is the log of these requests and [w'] the world after
    them. *)
Inductive fetch_run (site : call_site)
  : list string -> World -> list event -> option string -> World -> Prop :=
| fetch_run_exhausted w :
    fetch_run site [] w [] None w
| fetch_run_success c rest w ttl w1 :
    wiki_page c w = (Ret ttl, w1) ->
    fetch_run site (c :: rest) w [EvPage site c (Ret ttl)] (Some ttl) w1
| fetch_run_failure c rest w e w1 evs r w2 :
    wiki_page c w = (Raise e, w1) ->
    fetch_run site rest w1 evs r w2 ->
    fetch_run site (c :: rest) w (EvPage site c (Raise e) :: evs) r w2.

End WithService.

Arguments ret {World A} a.
Arguments bind {World A B} m k.
Arguments log_before {World A} l x.
Arguments try_except {World A} m h.

Arguments found t : simpl never.

(** ** A small service to run the resolver on *)

(** The world counts the requests served; page titles not listed do not
    exist. *)
Definition toy_pages : list (string * outcome string) :=
  [ ("Apple", Raise (DisambiguationError
                       ["Apple (fruit)"; "Big Apple"; "Apple Inc"; "Fiona";
                        "Apple Records"]));
    ("Apple Inc", Ret "Apple Inc.");
    ("Apple (fruit)", Raise OtherException);
    ("Dell (company)", Ret "Dell");
    ("Acme Corporation", Ret "Acme Corporation") ].

Definition toy_page (title : string) (w : nat) : outcome string * nat :=
  (dict_get toy_pages title (Raise PageError), S w).

Definition toy_search (query : string) (w : nat)
  : outcome (list string) * nat :=
  (if String.eqb query "Acme" then Ret ["Acme"; "Acme Corporation"; "Acme Inc"]
   else if String.eqb query "Jabra" then Raise OtherException
   else Ret [],
   S w).

Definition toy_resolve (brand : string)
  : outcome resolution * nat * list event :=
  has_wikipedia_page nat toy_page toy_search brand 0.

End Resolver.

(* ================================================================== *)
(** * The page resolver as the specification describes it *)
(* ================================================================== *)

Module ResolverSpec.
Import PyStr Resolver.
Local Open Scope list_scope.

(** ** The ranking of disambiguation options *)

(** The option contains the brand name as a substring, letter case set
    aside. *)
Definition names_brand (brand option : string) : Prop :=
  substring (lower brand) (lower option).

(** [x] may stand before [y] when the options are in ascending order of the
    pair (does not contain the brand, length): an option that contains the
    brand before one that does not, and otherwise, among options that agree
    on containing the brand, a shorter one before a longer one. *)
Definition ranked_before (brand x y : string) : Prop :=
  (names_brand brand x /\ ~ names_brand brand y)
  \/ ((names_brand brand x <-> names_brand brand y)
      /\ (String.length x <= String.length y)%nat).

(** ** The fallback chain *)

Section WithService.

Variable World : Type.
Variable wiki_page : string -> World -> outcome string * World.
Variable wiki_search : string -> World -> outcome (list string) * World.

(** What one candidate title leads to.  Its page is requested.  A page ends
    the step with its title.  A disambiguation error makes the first three
    ranked options be requested in turn, until one yields a page.  Any other
    failure ends the step without a page and without further requests. *)
Inductive candidate_step (brand c : string)
  : World -> list event -> option string -> World -> Prop :=
| candidate_page w ttl w1 :
    wiki_page c w = (Ret ttl, w1) ->
    candidate_step brand c w [EvPage Direct c (Ret ttl)] (Some ttl) w1
| candidate_ambiguous w options w1 evs r w2 :
    wiki_page c w = (Raise (DisambiguationError options), w1) ->
    fetch_run World wiki_page Disambiguated
      (firstn 3 (rank_options brand options)) w1 evs r w2 ->
    candidate_step brand c w
      (EvPage Direct c (Raise (DisambiguationError options)) :: evs) r w2
| candidate_failed w e w1 :
    wiki_page c w = (Raise e, w1) ->
    (forall options, e <> DisambiguationError options) ->
    candidate_step brand c w [EvPage Direct c (Raise e)] None w1.

(** The candidates are taken in order.  A step that ends with a page ends
    the run; a step that ends without one is followed by the step of the next
    candidate; the run ends without a page when no candidate is left. *)
Inductive candidates_run (brand : string)
  : list string -> World -> list event -> option string -> World -> Prop :=
| candidates_exhausted w :
    candidates_run brand [] w [] None w
| candidates_found c rest w evs ttl w1 :
    candidate_step brand c w evs (Some ttl) w1 ->
    candidates_run brand (c :: rest) w evs (Some ttl) w1
| candidates_next c rest w evs w1 evs' r w2 :
    candidate_step brand c w evs None w1 ->
    candidates_run brand rest w1 evs' r w2 ->
    candidates_run brand (c :: rest) w (evs ++ evs') r w2.

(** The fallback: the brand name is searched for.  A search that fails ends
    the fallback without a page; otherwise the first five hits are requested
    in turn, until one yields a page. *)
Inductive search_run (brand : string)
  : World -> list event -> option string -> World -> Prop :=
| search_failed w e w1 :
    wiki_search brand w = (Raise e, w1) ->
    search_run brand w [EvSearch brand (Raise e)] None w1
| search_hits w hits w1 evs r w2 :
    wiki_search brand w = (Ret hits, w1) ->
    fetch_run World wiki_page SearchHit (firstn 5 hits) w1 evs r w2 ->
    search_run brand w (EvSearch brand (Ret hits) :: evs) r w2.

(** The whole chain: candidates first; the fallback when, and only when, no
    candidate led to a page; 1 with the title of the first page obtained, or
    0 without a title when every step failed. *)
Definition fallback_chain (brand : string) (w : World) (evs : list event)
    (v : resolution) (w' : World) : Prop :=
  exists evs1 r1 w1,
    candidates_run brand (titles_to_try brand) w evs1 r1 w1
    /\ match r1 with
       | Some ttl => evs = evs1 /\ v = (1%Z, Some ttl) /\ w' = w1
       | None =>
           exists evs2 r2,
             search_run brand w1 evs2 r2 w'
             /\ evs = evs1 ++ evs2 /\ v = resolution_of r2
       end.

End WithService.

End ResolverSpec.

(* ================================================================== *)
(** * Association tester ([chi_square_on_haswiki]) *)
(* ================================================================== *)

Module Tester.
Local Open Scope list_scope.
Local Open Scope Z_scope.

(** ** The frame and its cross-tabulation *)

(** The two columns of a row that the tester reads.  Both hold integers
    when the tester is called: [compute_haswiki_flags] ends with
    [.astype(int)] and [label_mentions] with [np.where] over 0 and 1. *)
Record sample : Type := mkSample {
  HasWiki   : Z;
  Mentioned : Z
}.

(** The result of [pd.crosstab]: the row labels, the column labels and the
    counts, one list per row label. *)
Record table : Type := mkTable {
  index   : list Z;
  columns : list Z;
  values  : list (list Z)
}.

(** The distinct values of a column in ascending order, which is how
    [crosstab] labels its axes. *)
Fixpoint insert_label (x : Z) (l : list Z) : list Z :=
  match l with
  | [] => [x]
  | y :: l' =>
      if x <? y then x :: l
      else if x =? y then l
      else y :: insert_label x l'
  end.

Definition labels (xs : list Z) : list Z :=
  fold_right insert_label [] xs.

Definition count_if (P : sample -> bool) (df : list sample) : Z :=
  Z.of_nat (List.length (filter P df)).

(** The number of rows of the frame that fall in the cell [(r, c)]. *)
Definition cell (df : list sample) (r c : Z) : Z :=
  count_if (fun s => (HasWiki s =? r) && (Mentioned s =? c)) df.

(** [pd.crosstab(df["HasWiki"], df["Mentioned"])]. *)
Definition crosstab (df : list sample) : table :=
  let rows := labels (map HasWiki df) in
  let cols := labels (map Mentioned df) in
  {| index := rows;
     columns := cols;
     values := map (fun r => map (fun c => cell df r c) cols) rows |}.

Definition zsum (l : list Z) : Z := fold_right Z.add 0 l.

(** [tab.size]. *)
Definition size (tab : table) : Z :=
  Z.of_nat (List.length (index tab)) * Z.of_nat (List.length (columns tab)).

(** [tab.values.sum()]. *)
Definition values_sum (tab : table) : Z :=
  zsum (map zsum (values tab)).

Definition row_sums (obs : list (list Z)) : list Z := map zsum obs.

Definition col_sums (obs : list (list Z)) : list Z :=
  map (fun j => zsum (map (fun row => nth j row 0) obs))
      (seq 0 (List.length (hd [] obs))).

(** A table with exactly one cell equal to 0, the others being positive. *)
Definition one_zero_cell (obs : list (list Z)) : Prop :=
  exists pre post,
    List.concat obs = pre ++ 0 :: post
    /\ Forall (Z.lt 0) pre /\ Forall (Z.lt 0) post.

(** ** Numbers and failures *)

Inductive error : Type := ValueError.

Inductive outcome (A : Type) : Type :=
| Ok (a : A)
| Err (e : error).
Arguments Ok {A} a.
Arguments Err {A} e.

(** A float that may be [nan]. *)
Inductive pyfloat : Type :=
| Finite (x : R)
| NaN.

(** [math.sqrt], which raises [ValueError] below zero. *)
Definition py_sqrt (x : R) : outcome R :=
  if Rlt_dec x 0 then Err ValueError else Ok (sqrt x).

(** What the tester reports. *)
Record report : Type := mkReport {
  chi2 : R;
  p    : R;
  dof  : Z;
  phi  : pyfloat
}.

(** ** The tester over an arbitrary [chi2_contingency] *)

Section WithScipy.

(** [scipy.stats.chi2_contingency] applied to the counts of a table: the
    statistic, the p-value and the degrees of freedom, or an exception.  The
    fourth component of its result is dropped by the program. *)
Variable chi2_contingency : list (list Z) -> outcome (R * R * Z).

(** Lines 198-206.  The second component lists the tables handed to
    [chi2_contingency].  The printing that follows line 206 is left out. *)
Definition chi_square_on_haswiki (df : list sample)
  : outcome report * list (list (list Z)) :=
  let tab := crosstab df in
  if (size tab =? 0) || (values_sum tab =? 0) then
    (Ok {| chi2 := 0%R; p := 1%R; dof := 0; phi := Finite 0%R |}, [])
  else
    match chi2_contingency (values tab) with
    | Err e => (Err e, [values tab])
    | Ok (stat, pval, d) =>
        let n := Z.of_nat (List.length df) in
        if 0 <? n then
          match py_sqrt (stat / IZR n) with
          | Ok root =>
              (Ok {| chi2 := stat; p := pval; dof := d; phi := Finite root |},
               [values tab])
          | Err e => (Err e, [values tab])
          end
        else
          (Ok {| chi2 := stat; p := pval; dof := d; phi := NaN |},
           [values tab])
    end.

End WithScipy.

(** ** What is assumed of [chi2_contingency] *)

(** Modelled from the spec: [scipy.stats.chi2_contingency] is not part of
    the program; the specification calls what it returns "the standard
    Pearson chi-square statistic and its p-value and degrees of freedom".
    Its documentation says that it raises when a count is negative or when
    an expected frequency, the product of a row sum and a column sum divided
    by the total, is zero.  On the other tables it returns, and the
    statistic, a sum of squares over positive numbers, is not negative. *)
Definition chi2_contingency_contract
    (f : list (list Z) -> outcome (R * R * Z)) : Prop :=
  forall obs : list (list Z),
    Forall (Forall (Z.le 0)) obs ->
    Forall (Z.lt 0) (row_sums obs) ->
    Forall (Z.lt 0) (col_sums obs) ->
    0 < zsum (row_sums obs) ->
    exists stat pval d, f obs = Ok (stat, pval, d) /\ (0 <= stat)%R.

(** A function that meets the contract: Pearson's statistic without
    continuity correction, with the degrees of freedom of a two-way table;
    the p-value is computed by [sf], the survival function of the chi-square
    distribution, which the caller supplies. *)
Definition rsum (l : list R) : R := fold_right Rplus 0%R l.

Definition pearson_term (o e : R) : R := ((o - e) * (o - e) / e)%R.

Definition pearson_statistic (obs : list (list Z)) : R :=
  let n := IZR (zsum (row_sums obs)) in
  rsum (map (fun row =>
               rsum (map (fun oc : Z * Z =>
                            pearson_term (IZR (fst oc))
                              (IZR (zsum row) * IZR (snd oc) / n)%R)
                         (combine row (col_sums obs))))
            obs).

Definition pearson_contingency (sf : R -> Z -> R) (obs : list (list Z))
  : outcome (R * R * Z) :=
  if forallb (forallb (Z.leb 0)) obs
     && forallb (Z.ltb 0) (row_sums obs)
     && forallb (Z.ltb 0) (col_sums obs)
     && (0 <? zsum (row_sums obs))
  then
    let d := (Z.of_nat (List.length obs) - 1)
             * (Z.of_nat (List.length (hd [] obs)) - 1) in
    let stat := pearson_statistic obs in
    Ok (stat, sf stat d, d)
  else Err ValueError.

(** A stand-in for the survival function: the properties below do not
    depend on the p-value. *)
Definition constant_sf (x : R) (d : Z) : R := 1%R.

(** A frame of three rows to run the tester on. *)
Definition demo_frame : list sample :=
  [mkSample 1 1; mkSample 1 0; mkSample 0 0].

End Tester.

(* ================================================================== *)
(** * The association tester in binary64 arithmetic *)
(* ================================================================== *)

(** [chi_square_on_haswiki] once more, lines 198-206, with the floats of the
    program as they are: IEEE 754 binary64 numbers, every operation rounded
    to nearest, ties to even.  The table is the one of [Tester]. *)

Module Tester64.
Import Tester.
Local Open Scope list_scope.
Local Open Scope Z_scope.

Definition float : Set := PrimFloat.float.

(** The float that Python makes of an integer for a division such as
    [chi2 / n]: the nearest binary64 number. *)
Definition of_int (n : Z) : float :=
  FloatOps.SF2Prim
    (SpecFloat.binary_normalize FloatOps.prec FloatOps.emax n 0 false).

(** [math.sqrt]: [ValueError] below zero; a negative zero and [nan] are let
    through. *)
Definition py_sqrt (x : float) : outcome float :=
  if PrimFloat.ltb x PrimFloat.zero then Err ValueError
  else Ok (PrimFloat.sqrt x).

(** What the tester reports. *)
Record report : Type := mkReport {
  chi2 : float;
  p    : float;
  dof  : Z;
  phi  : float
}.

Section WithScipy.

(** [scipy.stats.chi2_contingency] on the counts of a table, with binary64
    results. *)
Variable chi2_contingency : list (list Z) -> outcome (float * float * Z).

(** Lines 198-206; the second component lists the tables handed to
    [chi2_contingency]. *)
Definition chi_square_on_haswiki (df : list sample)
  : outcome report * list (list (list Z)) :=
  let tab := crosstab df in
  if (size tab =? 0) || (values_sum tab =? 0) then
    (Ok {| chi2 := PrimFloat.zero; p := PrimFloat.one; dof := 0;
           phi := PrimFloat.zero |}, [])
  else
    match chi2_contingency (values tab) with
    | Err e => (Err e, [values tab])
    | Ok (stat, pval, d) =>
        let n := Z.of_nat (List.length df) in
        if 0 <? n then
          match py_sqrt (PrimFloat.div stat (of_int n)) with
          | Ok root =>
              (Ok {| chi2 := stat; p := pval; dof := d; phi := root |},
               [values tab])
          | Err e => (Err e, [values tab])
          end
        else
          (Ok {| chi2 := stat; p := pval; dof := d; phi := PrimFloat.nan |},
           [values tab])
    end.

End WithScipy.

(** A frame of twelve rows whose table is [[2; 0]; [2; 8]], and a
    [chi2_contingency] that answers what is expected on it: Pearson's
    statistic with the continuity correction is 15/8 for this table, a number
    that binary64 holds exactly; the p-value is about 0.17 and there is one
    degree of freedom. *)
Definition twelve_rows : list sample :=
  [ mkSample 0 0; mkSample 0 0; mkSample 1 0; mkSample 1 0;
    mkSample 1 1; mkSample 1 1; mkSample 1 1; mkSample 1 1;
    mkSample 1 1; mkSample 1 1; mkSample 1 1; mkSample 1 1 ].

Definition statistic_demo : float := PrimFloat.div (of_int 15) (of_int 8).

Definition answers_demo (obs : list (list Z)) : outcome (float * float * Z) :=
  Ok (statistic_demo, PrimFloat.div (of_int 171) (of_int 1000), 1).

End Tester64.

(* ================================================================== *)
(** * Prompt builder and response seeder
      ([build_prompts], [seed_sample_responses]) *)
(* ================================================================== *)

Module Prep.
Import Labeler.
Local Open Scope list_scope.

(** A row of the frame read from the brand file: the two columns the program
    uses. *)
Record csv_row : Type := mkCsv {
  csv_Brand    : string;
  csv_Category : string
}.

(** A row after [build_prompts]. *)
Record prompt_row : Type := mkPrompt {
  p_Brand    : string;
  p_Category : string;
  p_Prompt   : string
}.

(** ["Is " + Brand + " a good " + Category + " brand?"], the sums taken from
    the left as Python does. *)
Definition prompt_text (brand category : string) : string :=
  (((("Is " ++ brand) ++ " a good ") ++ category) ++ " brand?")%string.

Definition build_prompts (df : list csv_row) : list prompt_row :=
  map (fun r => {| p_Brand := csv_Brand r;
                   p_Category := csv_Category r;
                   p_Prompt := prompt_text (csv_Brand r) (csv_Category r) |})
      df.

(** The list [seed] of lines 114-118. *)
Definition seed : list string :=
  [ "Yes, Apple is one of the most popular laptop brands.";
    "Yes, Dell laptops are known for reliability.";
    "HP is a solid laptop brand with many models." ].

(** [enumerate(l)]. *)
Definition enumerate {A : Type} (l : list A) : list (nat * A) :=
  combine (seq 0 (List.length l)) l.

(** A row with its response replaced. *)
Definition with_response (text : string) (r : raw_row) : raw_row :=
  mkRaw (raw_Brand r) (raw_Category r) (raw_Prompt r) (Some text).

(** [df.at[i, "Response"] = text] on a frame whose index is 0, 1, 2, ...,
    as [read_csv] builds it; the program guards the assignment by
    [i < len(df)]. *)
Fixpoint set_response (i : nat) (text : string) (df : list raw_row)
  : list raw_row :=
  match df, i with
  | [], _ => []
  | r :: df', O => with_response text r :: df'
  | r :: df', S i' => r :: set_response i' text df'
  end.

(** One turn of the loop of lines 119-121. *)
Definition seed_step (df : list raw_row) (it : nat * string) : list raw_row :=
  let (i, text) := it in
  if (i <? List.length df)%nat then set_response i text df else df.

Definition seed_sample_responses (df : list prompt_row) : list raw_row :=
  let blank :=
    map (fun r => mkRaw (p_Brand r) (p_Category r) (p_Prompt r) (Some ""%string))
        df in
  fold_left seed_step (enumerate seed) blank.

(** Steps 2 to 4 of [main]. *)
Definition prepare (df : list csv_row) : list row :=
  label_mentions (seed_sample_responses (build_prompts df)).

(** [df["Mentioned"].sum()]. *)
Definition total_mentions (df : list row) : Z :=
  fold_right Z.add 0%Z (map Mentioned df).

End Prep.

(* ================================================================== *)
(** * Reading the log of the resolver further *)
(* ================================================================== *)

Module Observe.
Import Resolver.
Local Open Scope list_scope.

(** The number of page requests of a log that obtained a page. *)
Fixpoint page_successes (evs : list event) : nat :=
  match evs with
  | [] => 0
  | EvPage _ _ (Ret _) :: evs' => S (page_successes evs')
  | _ :: evs' => page_successes evs'
  end.

(** The queries of the searches of a log, in order. *)
Fixpoint searches (evs : list event) : list string :=
  match evs with
  | [] => []
  | EvSearch q _ :: evs' => q :: searches evs'
  | _ :: evs' => searches evs'
  end.

(** The number of pages behind the outcome of a search for a page. *)
Definition successes_of (r : option string) : nat :=
  match r with Some _ => 1%nat | None => 0%nat end.

End Observe.

(* ================================================================== *)
(** * A failing stand-in for [chi2_contingency] *)
(* ================================================================== *)

Module TesterAux.
Import Tester.

(** A [chi2_contingency] that raises on every table, to watch the tester
    when the library fails. *)
Definition always_failing (obs : list (list Z)) : outcome (R * R * Z) :=
  Err ValueError.

End TesterAux.

(* ================================================================== *)
(** * Summarizer ([summarize]) *)
(* ================================================================== *)

Module Summary.
Import Labeler.
Local Open Scope list_scope.

(** ** Grouping *)

Section GroupBy.

(** The type of the group keys, with its equality test and the strict order
    in which [groupby] lists the groups. *)
Variable K : Type.
Variable eqb : K -> K -> bool.
Variable ltb : K -> K -> bool.

(** The distinct keys in the order of their first occurrence. *)
Definition add_key (keys : list K) (k : K) : list K :=
  if existsb (eqb k) keys then keys else keys ++ [k].

Definition unique (l : list K) : list K := fold_left add_key l [].

(** The keys in ascending order. *)
Fixpoint insert_key (k : K) (l : list K) : list K :=
  match l with
  | [] => [k]
  | y :: l' => if ltb y k then y :: insert_key k l' else k :: l
  end.

Definition sort_keys (l : list K) : list K := fold_right insert_key [] l.

(** The keys of [df.groupby(...)]: one per group, sorted. *)
Definition group_keys (key : row -> K) (df : list row) : list K :=
  sort_keys (unique (map key df)).

(** The rows of one group, in the order of the frame. *)
Definition group (key : row -> K) (df : list row) (k : K) : list row :=
  filter (fun r => eqb (key r) k) df.

End GroupBy.

Arguments add_key {K} eqb keys k.
Arguments unique {K} eqb l.
Arguments insert_key {K} ltb k l.
Arguments sort_keys {K} ltb l.
Arguments group_keys {K} eqb ltb key df.
Arguments group {K} eqb key df k.

(** ** Aggregation *)

(** A row of [by_brand] or [by_cat]. *)
Record summary_row (K : Type) : Type := mkSummary {
  group_key          : K;
  prompts            : Z;
  responses_nonempty : Z;
  mentions           : Z;
  mention_rate       : R
}.
Arguments mkSummary {K} _ _ _ _ _.
Arguments group_key {K} _.
Arguments prompts {K} _.
Arguments responses_nonempty {K} _.
Arguments mentions {K} _.
Arguments mention_rate {K} _.

(** [("Prompt", "count")]: every row has a prompt. *)
Definition count_prompts (g : list row) : Z := Z.of_nat (List.length g).

(** [("ResponseEmpty", lambda s: (~s).sum())]. *)
Definition count_nonempty (g : list row) : Z :=
  Z.of_nat (List.length (filter (fun r => negb (ResponseEmpty r)) g)).

(** [("Mentioned", "sum")]. *)
Definition sum_mentions (g : list row) : Z :=
  fold_right Z.add 0%Z (map Mentioned g).

(** The sum of a column computed row by row. *)
Definition msum (m : row -> Z) (l : list row) : Z :=
  fold_right Z.add 0%Z (map m l).

(** 1 for a row whose response is not empty. *)
Definition nonempty_bit (r : row) : Z :=
  if ResponseEmpty r then 0%Z else 1%Z.

(** [np.where(n > 0, m / n, 0.0)] on one position. *)
Definition rate (m n : Z) : R :=
  if (0 <? n)%Z then (IZR m / IZR n)%R else 0%R.

Definition aggregate {K : Type} (eqb : K -> K -> bool) (key : row -> K)
    (df : list row) (k : K) : summary_row K :=
  let g := group eqb key df k in
  let n := count_nonempty g in
  let m := sum_mentions g in
  mkSummary k (count_prompts g) n m (rate m n).

Definition summary_table {K : Type} (eqb ltb : K -> K -> bool)
    (key : row -> K) (df : list row) : list (summary_row K) :=
  map (aggregate eqb key df) (group_keys eqb ltb key df).

(** ** The two tables *)

(** Keys of [groupby(["Category", "Brand"])]: pairs, compared first on the
    category and then on the brand. *)
Definition pair_eqb (a b : string * string) : bool :=
  String.eqb (fst a) (fst b) && String.eqb (snd a) (snd b).

Definition pair_ltb (a b : string * string) : bool :=
  String.ltb (fst a) (fst b)
  || (String.eqb (fst a) (fst b) && String.ltb (snd a) (snd b)).

Definition by_brand (df : list row) : list (summary_row (string * string)) :=
  summary_table pair_eqb pair_ltb (fun r => (Category r, Brand r)) df.

Definition by_cat (df : list row) : list (summary_row string) :=
  summary_table String.eqb String.ltb Category df.

(** The two frames that [summarize] builds; their printing, sorted by rate,
    is left out. *)
Definition summarize (df : list row)
  : list (summary_row (string * string)) * list (summary_row string) :=
  (by_brand df, by_cat df).

(** A labelled frame of four rows to run the summarizer on. *)
Definition summary_demo : list row :=
  label_mentions
    [ mkRaw "Dell" "Laptop" "" (Some "Dell is fine");
      mkRaw "HP" "Laptop" "" (Some "No idea");
      mkRaw "Dell" "Laptop" "" (Some "I like dell");
      mkRaw "Jabra" "Headset" "" (Some "") ].

End Summary.

(* ================================================================== *)
(** * Wikipedia flags for a frame ([compute_haswiki_flags]) *)
(* ================================================================== *)

Module Flags.
Import Labeler Resolver.
Local Open Scope list_scope.

(** A row of the frame that [compute_haswiki_flags] returns: the labelled
    row with the two new columns. *)
Record wiki_row : Type := mkWiki {
  labelled  : row;
  HasWiki   : Z;
  WikiTitle : option string
}.

(** [sorted(l)] on strings: code-point order, by insertion. *)
Fixpoint insert_str (x : string) (l : list string) : list string :=
  match l with
  | [] => [x]
  | y :: l' => if String.ltb y x then y :: insert_str x l' else x :: l
  end.

Definition sorted_str (l : list string) : list string :=
  fold_right insert_str [] l.

(** [sorted(df["Brand"].dropna().unique())]: the brands are strings, so
    [dropna] drops nothing; [unique] keeps the first occurrences in order,
    as [dict.fromkeys] does. *)
Definition brands_of (df : list row) : list string :=
  sorted_str (dict_fromkeys (map Brand df)).

(** [d[k] = v]. *)
Fixpoint dict_set {V : Type} (d : list (string * V)) (k : string) (v : V)
  : list (string * V) :=
  match d with
  | [] => [(k, v)]
  | (k', v') :: d' =>
      if String.eqb k' k then (k, v) :: d' else (k', v') :: dict_set d' k v
  end.

(** The two dictionaries of line 179 and the lines printed so far, each as
    the brand, the flag and the title it shows. *)
Record lookups : Type := mkLookups {
  wiki_flag  : list (string * Z);
  wiki_title : list (string * option string);
  printed    : list (string * Z * option string)
}.

Definition no_lookups : lookups := mkLookups [] [] [].

(** [df["Brand"].map(wiki_flag).fillna(0).astype(int)] on one row. *)
Definition flag_of (st : lookups) (brand : string) : Z :=
  match dict_lookup (wiki_flag st) brand with
  | Some v => v
  | None => 0%Z
  end.

(** [df["Brand"].map(wiki_title)] on one row; a brand that is not a key and
    a title that is [None] both leave the cell without a title. *)
Definition title_of (st : lookups) (brand : string) : option string :=
  match dict_lookup (wiki_title st) brand with
  | Some t => t
  | None => None
  end.

Section WithService.

Variable World : Type.
Variable wiki_page : string -> World -> outcome string * World.
Variable wiki_search : string -> World -> outcome (list string) * World.

(** The loop of lines 181-186; the pause between two brands changes
    nothing that is modelled. *)
Fixpoint lookup_brands (brands : list string) (st : lookups)
  : M World lookups :=
  match brands with
  | [] => ret st
  | b :: rest =>
      bind (has_wikipedia_page World wiki_page wiki_search b)
        (fun res =>
           let (has, title) := res in
           lookup_brands rest
             {| wiki_flag := dict_set (wiki_flag st) b has;
                wiki_title := dict_set (wiki_title st) b title;
                printed := printed st ++ [(b, has, title)] |})
  end.

(** The frame with its two new columns, and the lines printed. *)
Definition compute_haswiki_flags (df : list row)
  : M World (list wiki_row * list (string * Z * option string)) :=
  bind (lookup_brands (brands_of df) no_lookups)
    (fun st =>
       ret (map (fun r => {| labelled := r;
                             HasWiki := flag_of st (Brand r);
                             WikiTitle := title_of st (Brand r) |}) df,
            printed st)).

End WithService.

(** The brand of a printed line. *)
Definition line_brand (l : string * Z * option string) : string :=
  fst (fst l).

(** A flag and a title that go together: 0 and no title, or 1 and a
    title. *)
Definition flag_matches_title (has : Z) (title : option string) : Prop :=
  (has = 0%Z /\ title = None) \/ (has = 1%Z /\ exists ttl, title = Some ttl).

(** [x] does not come after [y] in the order of strings. *)
Definition not_after (x y : string) : Prop := String.ltb y x = false.

(** The dictionaries hold what the printed lines show. *)
Definition dicts_follow (st : lookups) : Prop :=
  wiki_flag st = map (fun l => (line_brand l, snd (fst l))) (printed st)
  /\ wiki_title st = map (fun l => (line_brand l, snd l)) (printed st).

(** Every printed line shows a flag and a title that go together. *)
Definition lines_ok (st : lookups) : Prop :=
  forall l, In l (printed st) -> flag_matches_title (snd (fst l)) (snd l).

End Flags.

(* ================================================================== *)
(** * The last two steps of [main] *)
(* ================================================================== *)

Module Main.
Import Labeler Resolver Flags.
Local Open Scope list_scope.

(** The two columns of a row that the tester reads. *)
Definition to_sample (r : wiki_row) : Tester.sample :=
  Tester.mkSample (HasWiki r) (Mentioned (labelled r)).

Section WithLibraries.

Variable World : Type.
Variable wiki_page : string -> World -> outcome string * World.
Variable wiki_search : string -> World -> outcome (list string) * World.
Variable chi2_contingency
  : list (list Z) -> Tester.outcome (R * R * Z).

(** Lines 250 and 253 of [main] on the labelled frame: the Wikipedia flags,
    then the tester up to line 206, which is where its computation ends; what
    the tester prints after that line is left out.  The result is what the
    tester reports, with the tables it handed to [chi2_contingency]. *)
Definition flags_then_test (df : list row)
  : M World (Tester.outcome Tester.report * list (list (list Z))) :=
  bind (compute_haswiki_flags World wiki_page wiki_search df)
    (fun res =>
       ret (Tester.chi_square_on_haswiki chi2_contingency
              (map to_sample (fst res)))).

End WithLibraries.

End Main.

(* ================================================================== *)
(** * Facts about the string operations *)
(* ================================================================== *)

Module PyStrFacts.
Import PyStr.

Lemma prefix_app (a b : string) : prefix a (a ++ b) = true.
Proof.
  induction a as [|c a IH]; simpl.
  - destruct b; reflexivity.
  - destruct (ascii_dec c c) as [_|N]; [exact IH | now elim N].
Qed.

Lemma prefix_split (a s : string) :
  prefix a s = true -> exists post, s = a ++ post.
Proof.
  revert s; induction a as [|c a IH]; intros s H.
  - exists s; reflexivity.
  - destruct s as [|d s]; simpl in H; [discriminate|].
    destruct (ascii_dec c d) as [->|_]; [|discriminate].
    destruct (IH _ H) as [post ->]. exists post; reflexivity.
Qed.

Lemma contains_substring (sub s : string) :
  contains sub s = true <-> substring sub s.
Proof.
  split.
  - induction s as [|c s IH]; intros H.
    + destruct sub; [|discriminate H]. exists "", ""; reflexivity.
    + cbn [contains] in H. destruct (prefix sub (String c s)) eqn:E.
      * destruct (prefix_split _ _ E) as [post ->]. exists "", post; reflexivity.
      * destruct (IH H) as (pre & post & ->).
        exists (String c pre), post; reflexivity.
  - intros (pre & post & ->).
    induction pre as [|c pre IH].
    + change ("" ++ sub ++ post) with (sub ++ post).
      destruct (sub ++ post) eqn:E; cbn [contains];
        rewrite <- E, prefix_app; reflexivity.
    + change (String c pre ++ sub ++ post) with (String c (pre ++ sub ++ post)).
      cbn [contains]. rewrite IH. destruct (prefix sub _); reflexivity.
Qed.

Lemma lstrip_all_space (s : string) :
  lstrip s = "" <-> all_space s = true.
Proof.
  induction s as [|c s IH]; simpl; [tauto|].
  destruct (isspace c); simpl; [exact IH|].
  split; discriminate.
Qed.

Lemma rstrip_empty (s : string) :
  rstrip s = "" <-> all_space s = true.
Proof.
  induction s as [|c s IH]; simpl; [tauto|].
  destruct (rstrip s) eqn:E.
  - destruct (isspace c); simpl.
    + split; [intros _; now apply IH | reflexivity].
    + split; discriminate.
  - split; [discriminate|].
    rewrite andb_true_iff. intros [_ H]. apply IH in H. discriminate.
Qed.

Lemma all_space_lstrip (s : string) :
  all_space (lstrip s) = true -> all_space s = true.
Proof.
  induction s as [|c s IH]; simpl; [tauto|].
  destruct (isspace c) eqn:E; simpl; [exact IH|].
  rewrite E. tauto.
Qed.

(** [s.strip() == ""] holds exactly for the strings made of white space
    only (the empty string among them). *)
Lemma strip_empty (s : string) :
  strip s = "" <-> all_space s = true.
Proof.
  unfold strip. rewrite rstrip_empty. split.
  - apply all_space_lstrip.
  - intros H. apply lstrip_all_space in H. rewrite H. reflexivity.
Qed.

End PyStrFacts.

(* ================================================================== *)
(** * The mention labeler: properties *)
(* ================================================================== *)

Module LabelerFacts.
Import PyStr PyStrFacts Labeler.

(** The two examples of the specification. *)
Example label_apple :
  map Mentioned
      (label_mentions [mkRaw "Apple" "Laptop" "" (Some "Yes, Apple is great")])
  = [1%Z].
Proof. reflexivity. Qed.

Example label_dell :
  map Mentioned (label_mentions [mkRaw "Dell" "Laptop" "" (Some "")]) = [0%Z].
Proof. reflexivity. Qed.

Lemma label_mentions_nth (df : list raw_row) (i : nat) (r : raw_row) :
  nth_error df i = Some r ->
  nth_error (label_mentions df) i = Some (label_row r).
Proof.
  intros H. unfold label_mentions. rewrite nth_error_map, H. reflexivity.
Qed.

Lemma response_empty_true (s : string) :
  response_empty s = true <-> strip s = "".
Proof.
  unfold response_empty. destruct (strip s); simpl; split;
    congruence.
Qed.

(** C1. Every record whose response is empty, missing, or made of white
    space only (that is, empty once trimmed) is labelled [Mentioned = 0],
    whatever the brand is and whatever the substring test says. *)
Theorem blank_response_not_mentioned
    (df : list raw_row) (i : nat) (r : raw_row) :
  nth_error df i = Some r ->
  strip (fillna (raw_Response r)) = "" ->
  exists r', nth_error (label_mentions df) i = Some r'
             /\ Brand r' = raw_Brand r
             /\ ResponseEmpty r' = true
             /\ Mentioned r' = 0%Z.
Proof.
  intros Hi Hblank. exists (label_row r).
  split; [now apply label_mentions_nth|].
  apply response_empty_true in Hblank.
  unfold label_row; simpl. rewrite Hblank. auto.
Qed.

(** A white-space-only response next to a brand that does occur in it. *)
Lemma blank_response_not_mentioned_witness :
  let r := mkRaw " " "Laptop" "" (Some (String "009" " ")) in
  contains (lower (raw_Brand r)) (lower (fillna (raw_Response r))) = true
  /\ exists r', nth_error (label_mentions [r]) 0 = Some r'
                /\ Brand r' = raw_Brand r
                /\ ResponseEmpty r' = true
                /\ Mentioned r' = 0%Z.
Proof.
  split; [reflexivity|].
  apply (blank_response_not_mentioned
           [mkRaw " " "Laptop" "" (Some (String "009" " "))] 0);
    reflexivity.
Defined.

(** C2 as it is worded fails: a response of one blank is not empty, the brand
    [" "] is a substring of it, and yet the record is labelled 0. *)
Lemma nonempty_response_rule_fails :
  ~ (forall (df : list raw_row) (i : nat) (r : raw_row),
        nth_error df i = Some r ->
        fillna (raw_Response r) <> "" ->
        exists r', nth_error (label_mentions df) i = Some r'
          /\ Mentioned r' =
             if contains (lower (raw_Brand r)) (lower (fillna (raw_Response r)))
             then 1%Z else 0%Z).
Proof.
  intros H.
  destruct (H [mkRaw " " "Laptop" "" (Some " ")] 0%nat
              (mkRaw " " "Laptop" "" (Some " ")) eq_refl)
    as (r' & Hr' & HM).
  - discriminate.
  - simpl in Hr'. injection Hr' as <-. discriminate HM.
Qed.

(** C2, amended. For every record whose response is not empty once trimmed,
    [Mentioned] is 1 when the lower-cased brand is a substring of the
    lower-cased response and 0 otherwise. *)
Theorem nonblank_response_rule
    (df : list raw_row) (i : nat) (r : raw_row) :
  nth_error df i = Some r ->
  strip (fillna (raw_Response r)) <> "" ->
  exists r', nth_error (label_mentions df) i = Some r'
    /\ (substring (lower (raw_Brand r)) (lower (fillna (raw_Response r)))
        -> Mentioned r' = 1%Z)
    /\ (~ substring (lower (raw_Brand r)) (lower (fillna (raw_Response r)))
        -> Mentioned r' = 0%Z).
Proof.
  intros Hi Hnb. exists (label_row r).
  split; [now apply label_mentions_nth|].
  assert (E : response_empty (fillna (raw_Response r)) = false).
  { destruct (response_empty _) eqn:E; [|reflexivity].
    apply response_empty_true in E. contradiction. }
  unfold label_row; simpl. rewrite E. unfold np_where_zero, mention_lambda.
  destruct (contains _ _) eqn:C.
  - split; [reflexivity|]. intros N. elim N. now apply contains_substring.
  - split; [|reflexivity]. intros S. apply contains_substring in S. congruence.
Qed.

Lemma nonblank_response_rule_witness :
  let r := mkRaw "Apple" "Laptop" "" (Some "Yes, APPLE is great") in
  exists r', nth_error (label_mentions [r]) 0 = Some r'
    /\ (substring (lower (raw_Brand r)) (lower (fillna (raw_Response r)))
        -> Mentioned r' = 1%Z)
    /\ (~ substring (lower (raw_Brand r)) (lower (fillna (raw_Response r)))
        -> Mentioned r' = 0%Z).
Proof.
  apply (nonblank_response_rule
           [mkRaw "Apple" "Laptop" "" (Some "Yes, APPLE is great")] 0).
  - reflexivity.
  - vm_compute. discriminate.
Defined.

End LabelerFacts.

(* ================================================================== *)
(** * The page resolver: properties *)
(* ================================================================== *)

Module ResolverFacts.
Import PyStr PyStrFacts Resolver ResolverSpec.
Local Open Scope list_scope.

(** ** [dict.fromkeys] *)

Lemma mem_In (x : string) (l : list string) : mem x l = true <-> In x l.
Proof.
  unfold mem. rewrite existsb_exists. split.
  - intros (y & Hy & E). apply String.eqb_eq in E. now subst.
  - intros H. exists x. split; [exact H | apply String.eqb_refl].
Qed.

Lemma mem_false (x : string) (l : list string) :
  mem x l = false <-> ~ In x l.
Proof.
  rewrite <- mem_In. destruct (mem x l); split; congruence.
Qed.

Lemma insert_key_In (keys : list string) (k x : string) :
  In x (insert_key keys k) <-> In x keys \/ x = k.
Proof.
  unfold insert_key. destruct (mem k keys) eqn:E.
  - apply mem_In in E. split; [tauto|]. intros [H| ->]; assumption.
  - rewrite in_app_iff. simpl. intuition (subst; auto).
Qed.

Lemma insert_key_NoDup (keys : list string) (k : string) :
  NoDup keys -> NoDup (insert_key keys k).
Proof.
  intros H. unfold insert_key. destruct (mem k keys) eqn:E; [exact H|].
  apply mem_false in E.
  apply NoDup_rev in H. rewrite <- (rev_involutive (keys ++ [k])).
  apply NoDup_rev. rewrite rev_app_distr. simpl. constructor; [|exact H].
  now rewrite <- in_rev.
Qed.

Lemma fold_insert_key_In (l acc : list string) (x : string) :
  In x (fold_left insert_key l acc) <-> In x acc \/ In x l.
Proof.
  revert acc; induction l as [|k l IH]; intros acc; simpl; [tauto|].
  rewrite IH, insert_key_In. intuition (subst; auto).
Qed.

Lemma fold_insert_key_NoDup (l acc : list string) :
  NoDup acc -> NoDup (fold_left insert_key l acc).
Proof.
  revert acc; induction l as [|k l IH]; intros acc H; simpl; [exact H|].
  apply IH. now apply insert_key_NoDup.
Qed.

Lemma dict_fromkeys_In (l : list string) (x : string) :
  In x (dict_fromkeys l) <-> In x l.
Proof.
  unfold dict_fromkeys. rewrite fold_insert_key_In. simpl. tauto.
Qed.

Lemma dict_fromkeys_NoDup (l : list string) : NoDup (dict_fromkeys l).
Proof. apply fold_insert_key_NoDup. constructor. Qed.

Lemma mem_dict_fromkeys (l : list string) (x : string) :
  mem x (dict_fromkeys l) = mem x l.
Proof.
  destruct (mem x l) eqn:E.
  - apply mem_In, dict_fromkeys_In, mem_In, E.
  - apply mem_false. rewrite dict_fromkeys_In. now apply mem_false.
Qed.

(** Appending a key to the argument appends it to the result unless it is
    there already. *)
Lemma dict_fromkeys_snoc (l : list string) (x : string) :
  dict_fromkeys (l ++ [x])
  = dict_fromkeys l ++ (if mem x l then [] else [x]).
Proof.
  unfold dict_fromkeys at 1. rewrite fold_left_app. simpl.
  fold (dict_fromkeys l). unfold insert_key.
  rewrite mem_dict_fromkeys. destruct (mem x l); [|reflexivity].
  now rewrite app_nil_r.
Qed.

Lemma fold_insert_key_fresh (l acc : list string) :
  NoDup (acc ++ l) -> fold_left insert_key l acc = acc ++ l.
Proof.
  revert acc; induction l as [|k l IH]; intros acc H; simpl.
  - now rewrite app_nil_r.
  - assert (E : mem k acc = false).
    { apply mem_false. intros Hin. apply NoDup_remove_2 in H.
      apply H, in_or_app. now left. }
    unfold insert_key. rewrite E.
    replace (acc ++ k :: l) with ((acc ++ [k]) ++ l) in *
      by (now rewrite <- app_assoc).
    now apply IH.
Qed.

(** On a list without repetition [dict.fromkeys] changes nothing. *)
Lemma dict_fromkeys_id (l : list string) :
  NoDup l -> dict_fromkeys l = l.
Proof. intros H. now apply (fold_insert_key_fresh l []). Qed.

Lemma WIKI_ALIASES_NoDup (brand : string) (aliases : list string) :
  dict_lookup WIKI_ALIASES brand = Some aliases -> NoDup aliases.
Proof.
  unfold WIKI_ALIASES. cbn [dict_lookup].
  repeat match goal with
         | |- context [if String.eqb ?k brand then _ else _] =>
             destruct (String.eqb k brand)
         end;
    intros [= <-];
    repeat (constructor; [simpl; intuition discriminate|]); constructor.
Qed.

(** ** The ordering of sort keys and [sorted] *)

(** [key_le] is the lexicographic order with [False] before [True]. *)
Lemma key_le_spec (b1 b2 : bool) (n1 n2 : nat) :
  key_le (b1, n1) (b2, n2) = true
  <-> (b1 = false /\ b2 = true) \/ (b1 = b2 /\ (n1 <= n2)%nat).
Proof.
  unfold key_le, key_lt.
  destruct b1, b2; simpl; rewrite ?negb_true_iff, ?Nat.ltb_ge;
    intuition (try discriminate; try lia).
Qed.

Lemma key_lt_le (a b : bool * nat) :
  key_lt a b = true -> key_le a b = true.
Proof.
  destruct a as [b1 n1], b as [b2 n2]. unfold key_le, key_lt.
  destruct b1, b2; simpl; rewrite ?negb_true_iff, ?Nat.ltb_ge, ?Nat.ltb_lt;
    try discriminate; try reflexivity; lia.
Qed.

Lemma key_le_trans (a b c : bool * nat) :
  key_le a b = true -> key_le b c = true -> key_le a c = true.
Proof.
  destruct a as [b1 n1], b as [b2 n2], c as [b3 n3].
  rewrite !key_le_spec. destruct b1, b2, b3; intuition (try discriminate; lia).
Qed.

Lemma insert_by_perm (key : string -> bool * nat) (x : string)
    (l : list string) :
  Permutation (insert_by key x l) (x :: l).
Proof.
  induction l as [|y l IH]; simpl; [reflexivity|].
  destruct (key_lt (key y) (key x)); [|reflexivity].
  rewrite IH. apply perm_swap.
Qed.

Lemma sorted_by_perm (key : string -> bool * nat) (l : list string) :
  Permutation (sorted_by key l) l.
Proof.
  induction l as [|x l IH]; simpl; [reflexivity|].
  rewrite insert_by_perm. now constructor.
Qed.

Lemma insert_by_sorted (key : string -> bool * nat) (x : string)
    (l : list string) :
  StronglySorted (key_ordered key) l ->
  StronglySorted (key_ordered key) (insert_by key x l).
Proof.
  induction 1 as [|y l Hs IH Hy]; simpl.
  - repeat constructor.
  - destruct (key_lt (key y) (key x)) eqn:E.
    + constructor; [exact IH|].
      eapply Permutation_Forall; [symmetry; apply insert_by_perm|].
      constructor; [now apply key_lt_le | exact Hy].
    + assert (Hxy : key_ordered key x y).
      { unfold key_ordered, key_le. now rewrite E. }
      constructor; [now constructor|].
      constructor; [exact Hxy|].
      eapply Forall_impl; [|exact Hy].
      intros z Hz. eapply key_le_trans; eauto.
Qed.

Lemma sorted_by_sorted (key : string -> bool * nat) (l : list string) :
  StronglySorted (key_ordered key) (sorted_by key l).
Proof.
  induction l as [|x l IH]; simpl; [constructor|].
  now apply insert_by_sorted.
Qed.

Lemma insert_by_stable (key : string -> bool * nat) (k : bool * nat)
    (x : string) (l : list string) :
  filter (has_key key k) (insert_by key x l)
  = filter (has_key key k) (x :: l).
Proof.
  induction l as [|y l IH]; [reflexivity|].
  cbn [insert_by]. destruct (key_lt (key y) (key x)) eqn:E; [|reflexivity].
  cbn [filter] in *. rewrite IH.
  destruct (has_key key k x) eqn:Hx, (has_key key k y) eqn:Hy;
    try reflexivity.
  exfalso. unfold has_key in Hx, Hy.
  apply andb_true_iff in Hx as [Hx1 Hx2], Hy as [Hy1 Hy2].
  rewrite negb_true_iff in *.
  assert (L1 : key_le (key x) k = true) by (unfold key_le; now rewrite Hx2).
  assert (L2 : key_le k (key y) = true) by (unfold key_le; now rewrite Hy1).
  pose proof (key_le_trans _ _ _ L1 L2) as L. unfold key_le in L.
  rewrite E in L. discriminate.
Qed.

(** [sorted] is stable: the elements that share a sort key keep the order
    they had. *)
Lemma sorted_by_stable (key : string -> bool * nat) (k : bool * nat)
    (l : list string) :
  filter (has_key key k) (sorted_by key l) = filter (has_key key k) l.
Proof.
  induction l as [|x l IH]; [reflexivity|].
  cbn [sorted_by fold_right]. fold (sorted_by key l).
  rewrite insert_by_stable. cbn [filter]. now rewrite IH.
Qed.

(** The order of the sort keys is the order the specification describes. *)
Lemma key_ordered_ranked_before (brand x y : string) :
  key_ordered (sort_key brand) x y -> ranked_before brand x y.
Proof.
  unfold key_ordered, sort_key, ranked_before, names_brand.
  rewrite key_le_spec, <- !contains_substring.
  destruct (contains (lower brand) (lower x)),
           (contains (lower brand) (lower y)); cbn [negb];
    intuition (try discriminate).
Qed.

Lemma StronglySorted_weaken {A} (R1 R2 : A -> A -> Prop) (l : list A) :
  (forall x y, R1 x y -> R2 x y) ->
  StronglySorted R1 l -> StronglySorted R2 l.
Proof.
  intros H. induction 1 as [|x l Hs IH Hx]; constructor; [exact IH|].
  eapply Forall_impl; [|exact Hx]. intros y. apply H.
Qed.

Lemma rank_options_ranked (brand : string) (options : list string) :
  StronglySorted (ranked_before brand) (rank_options brand options).
Proof.
  eapply StronglySorted_weaken; [apply key_ordered_ranked_before|].
  apply sorted_by_sorted.
Qed.

Section WithService.

Variable World : Type.
Variable wiki_page : string -> World -> outcome string * World.
Variable wiki_search : string -> World -> outcome (list string) * World.

Local Abbreviation page := (Resolver.page World wiki_page).
Local Abbreviation search := (Resolver.search World wiki_search).
Local Abbreviation fetch_and_return := (Resolver.fetch_and_return World wiki_page).
Local Abbreviation try_fetch_each := (Resolver.try_fetch_each World wiki_page).
Local Abbreviation direct_handlers := (Resolver.direct_handlers World wiki_page).
Local Abbreviation try_titles := (Resolver.try_titles World wiki_page).
Local Abbreviation search_fallback :=
  (Resolver.search_fallback World wiki_page wiki_search).
Local Abbreviation after_titles :=
  (Resolver.after_titles World wiki_page wiki_search).
Local Abbreviation fetch_run := (Resolver.fetch_run World wiki_page).
Local Abbreviation candidate_step :=
  (ResolverSpec.candidate_step World wiki_page).
Local Abbreviation candidates_run :=
  (ResolverSpec.candidates_run World wiki_page).
Local Abbreviation search_run :=
  (ResolverSpec.search_run World wiki_page wiki_search).
Local Abbreviation fallback_chain :=
  (ResolverSpec.fallback_chain World wiki_page wiki_search).
Local Abbreviation has_wikipedia_page :=
  (Resolver.has_wikipedia_page World wiki_page wiki_search).

(** ** Equations of the loops *)

Lemma log_before_nil {A} (x : outcome A * World * list event) :
  log_before [] x = x.
Proof. destruct x as [[r w] l]; reflexivity. Qed.

Lemma log_before_app {A} (l1 l2 : list event)
    (x : outcome A * World * list event) :
  log_before l1 (log_before l2 x) = log_before (l1 ++ l2) x.
Proof. destruct x as [[r w] l]; simpl. now rewrite app_assoc. Qed.

Lemma try_fetch_each_cons (site : call_site) (c : string)
    (rest : list string) (w : World) :
  try_fetch_each site (c :: rest) w =
  match wiki_page c w with
  | (Ret ttl, w1) => (Ret (Some (found ttl)), w1, [EvPage site c (Ret ttl)])
  | (Raise e, w1) =>
      log_before [EvPage site c (Raise e)] (try_fetch_each site rest w1)
  end.
Proof.
  cbn [try_fetch_each].
  unfold bind, try_except, fetch_and_return, bind, page, ret,
    except_Exception_continue.
  destruct (wiki_page c w) as [[ttl|e] w1]; simpl; [reflexivity|].
  destruct (try_fetch_each site rest w1) as [[r w2] l2]; reflexivity.
Qed.

Lemma try_titles_cons (brand title : string) (rest : list string)
    (w : World) :
  try_titles brand (title :: rest) w =
  match wiki_page title w with
  | (Ret ttl, w1) =>
      (Ret (Some (found ttl)), w1, [EvPage Direct title (Ret ttl)])
  | (Raise (DisambiguationError options), w1) =>
      let ev := EvPage Direct title (Raise (DisambiguationError options)) in
      match try_fetch_each Disambiguated
              (firstn 3 (rank_options brand options)) w1 with
      | (Ret (Some v), w2, evs) => (Ret (Some v), w2, ev :: evs)
      | (Ret None, w2, evs) =>
          log_before (ev :: evs) (try_titles brand rest w2)
      | (Raise e, w2, evs) => (Raise e, w2, ev :: evs)
      end
  | (Raise e, w1) =>
      log_before [EvPage Direct title (Raise e)] (try_titles brand rest w1)
  end.
Proof.
  cbn [try_titles].
  unfold bind, try_except, fetch_and_return, bind, page, ret, direct_handlers.
  destruct (wiki_page title w) as [[ttl|[options| |]] w1];
    cbn -[firstn rank_options]; try reflexivity.
  destruct (try_fetch_each Disambiguated _ w1) as [[[[v|]|e] w2] evs];
    cbn -[firstn rank_options]; rewrite ?app_nil_r; reflexivity.
Qed.

(** ** What the loops do *)

Lemma try_fetch_each_spec (site : call_site) (cands : list string)
    (w : World) :
  exists r w' evs,
    try_fetch_each site cands w = (Ret (option_map found r), w', evs)
    /\ fetch_run site cands w evs r w'.
Proof.
  revert w; induction cands as [|c rest IH]; intros w.
  - exists None, w, []. split; [reflexivity | constructor].
  - rewrite try_fetch_each_cons.
    destruct (wiki_page c w) as [[ttl|e] w1] eqn:Ew.
    + exists (Some ttl), w1, [EvPage site c (Ret ttl)].
      split; [reflexivity | now constructor].
    + destruct (IH w1) as (r & w' & evs & E & R). rewrite E.
      exists r, w', (EvPage site c (Raise e) :: evs).
      split; [reflexivity | now econstructor; eauto].
Qed.

Lemma fetch_run_ends (site : call_site) (cands : list string) (w w' : World)
    (evs : list event) (ttl : string) :
  fetch_run site cands w evs (Some ttl) w' -> ends_with_page evs ttl.
Proof.
  intros R. remember (Some ttl) as r eqn:Er.
  induction R as [w|c rest w t w1 Ew|c rest w e w1 evs r w2 Ew R IH].
  - discriminate.
  - injection Er as ->. exists [], site, c; reflexivity.
  - destruct (IH Er) as (pre & s & t & ->).
    exists (EvPage site c (Raise e) :: pre), s, t; reflexivity.
Qed.

Lemma fetch_run_no_direct (site : call_site) (cands : list string)
    (w w' : World) (evs : list event) (r : option string) :
  site <> Direct -> fetch_run site cands w evs r w' -> direct_titles evs = [].
Proof.
  intros Hs R. induction R; simpl; destruct site; congruence.
Qed.

Lemma fetch_run_length (site : call_site) (cands : list string)
    (w w' : World) (evs : list event) (r : option string) :
  fetch_run site cands w evs r w' ->
  (List.length evs <= List.length cands)%nat.
Proof. intros R; induction R; simpl; lia. Qed.

Lemma direct_titles_app (l1 l2 : list event) :
  direct_titles (l1 ++ l2) = direct_titles l1 ++ direct_titles l2.
Proof.
  induction l1 as [|[[| |] t res|q res] l1 IH]; simpl; rewrite ?IH;
    reflexivity.
Qed.

Lemma ends_with_page_app (l1 l2 : list event) (ttl : string) :
  ends_with_page l2 ttl -> ends_with_page (l1 ++ l2) ttl.
Proof.
  intros (pre & s & t & ->). exists (l1 ++ pre), s, t. now rewrite app_assoc.
Qed.

Lemma try_titles_spec (brand : string) (titles : list string) (w : World) :
  exists r w' evs,
    try_titles brand titles w = (Ret (option_map found r), w', evs)
    /\ (exists n, direct_titles evs = firstn n titles)
    /\ (r = None -> direct_titles evs = titles)
    /\ (forall ttl, r = Some ttl -> ends_with_page evs ttl).
Proof.
  revert w; induction titles as [|t rest IH]; intros w.
  - exists None, w, []. repeat split; try discriminate.
    exists 0%nat; reflexivity.
  - rewrite try_titles_cons.
    destruct (wiki_page t w) as [[ttl|e] w1].
    + exists (Some ttl), w1, [EvPage Direct t (Ret ttl)].
      repeat split; try discriminate.
      * exists 1%nat. destruct rest; reflexivity.
      * intros ? [= <-]. exists [], Direct, t; reflexivity.
    + assert (Hcont : forall evs0 w2,
                 direct_titles evs0 = [] ->
                 exists r w' evs,
                   log_before (EvPage Direct t (Raise e) :: evs0)
                     (try_titles brand rest w2)
                   = (Ret (option_map found r), w', evs)
                   /\ (exists n, direct_titles evs = firstn n (t :: rest))
                   /\ (r = None -> direct_titles evs = t :: rest)
                   /\ (forall ttl, r = Some ttl -> ends_with_page evs ttl)).
      { intros evs0 w2 H0.
        destruct (IH w2) as (r & w' & evs & E & [n Hn] & HN & HS).
        rewrite E. exists r, w', ((EvPage Direct t (Raise e) :: evs0) ++ evs).
        split; [reflexivity|].
        cbn [app direct_titles]. rewrite direct_titles_app, H0. cbn [app].
        repeat split.
        - exists (S n). now rewrite Hn.
        - intros Hr. now rewrite (HN Hr).
        - intros ttl Hr.
          apply (ends_with_page_app (EvPage Direct t (Raise e) :: evs0)).
          now apply HS. }
      destruct e as [options| |]; try (apply (Hcont [] w1); reflexivity).
      cbv zeta.
      destruct (try_fetch_each_spec Disambiguated
                  (firstn 3 (rank_options brand options)) w1)
        as (r & w2 & evs & E & R).
      rewrite E.
      assert (H0 : direct_titles evs = []).
      { apply fetch_run_no_direct in R; [exact R | discriminate]. }
      destruct r as [ttl|]; cbn [option_map].
      * exists (Some ttl), w2,
          (EvPage Direct t (Raise (DisambiguationError options)) :: evs).
        cbn [direct_titles]. rewrite H0. repeat split; try discriminate.
        -- exists 1%nat. destruct rest; reflexivity.
        -- intros ? [= <-].
           apply (ends_with_page_app [_]). eapply fetch_run_ends; eauto.
      * now apply Hcont.
Qed.

Lemma try_titles_app (brand : string) (l1 l2 : list string)
    (w w1 : World) (evs1 : list event) :
  try_titles brand l1 w = (Ret None, w1, evs1) ->
  try_titles brand (l1 ++ l2) w = log_before evs1 (try_titles brand l2 w1).
Proof.
  revert w evs1; induction l1 as [|t rest IH]; intros w evs1 H.
  - injection H as <- <-. now rewrite log_before_nil.
  - cbn [app]. rewrite try_titles_cons in *.
    assert (Hcont : forall l0 w2,
               log_before l0 (try_titles brand rest w2) = (Ret None, w1, evs1) ->
               log_before l0 (try_titles brand (rest ++ l2) w2)
               = log_before evs1 (try_titles brand l2 w1)).
    { intros l0 w2 E.
      destruct (try_titles brand rest w2) as [[r' w'] l'] eqn:Er.
      cbn [log_before] in E. injection E as -> -> <-.
      rewrite (IH _ _ Er). apply log_before_app. }
    destruct (wiki_page t w) as [[ttl|[options| |]] w2];
      try discriminate; try (now apply Hcont).
    cbv zeta in *.
    destruct (try_fetch_each Disambiguated _ w2) as [[[[v|]|e] w3] evs];
      try discriminate.
    now apply Hcont.
Qed.

Lemma search_fallback_spec (brand : string) (w : World) :
  match wiki_search brand w with
  | (Raise e, w1) =>
      search_fallback brand w = (Ret None, w1, [EvSearch brand (Raise e)])
  | (Ret hits, w1) =>
      exists r w2 evs,
        fetch_run SearchHit (firstn 5 hits) w1 evs r w2
        /\ search_fallback brand w
           = (Ret (option_map found r), w2, EvSearch brand (Ret hits) :: evs)
  end.
Proof.
  unfold Resolver.search_fallback, try_except, bind, Resolver.search.
  destruct (wiki_search brand w) as [[hits|e] w1]; [|reflexivity].
  destruct (try_fetch_each_spec SearchHit (firstn 5 hits) w1)
    as (r & w2 & evs & E & R).
  exists r, w2, evs. split; [exact R|]. rewrite E. reflexivity.
Qed.

Lemma after_titles_none (brand : string) (w : World) :
  after_titles brand None w =
  match search_fallback brand w with
  | (Ret (Some v), w1, l) => (Ret v, w1, l)
  | (Ret None, w1, l) => (Ret (0%Z, None), w1, l)
  | (Raise e, w1, l) => (Raise e, w1, l)
  end.
Proof.
  unfold Resolver.after_titles, bind.
  destruct (search_fallback brand w) as [[[[v|]|e] w1] l]; try reflexivity;
    cbn; now rewrite app_nil_r.
Qed.

Lemma after_titles_none_spec (brand : string) (w : World) :
  exists r w' evs,
    after_titles brand None w = (Ret (resolution_of r), w', evs)
    /\ direct_titles evs = []
    /\ (forall ttl, r = Some ttl -> ends_with_page evs ttl).
Proof.
  rewrite after_titles_none.
  pose proof (search_fallback_spec brand w) as H.
  destruct (wiki_search brand w) as [[hits|e] w1].
  - destruct H as (r & w2 & evs & R & ->).
    exists r, w2, (EvSearch brand (Ret hits) :: evs).
    split; [destruct r; reflexivity|]. split.
    + cbn [direct_titles]. apply fetch_run_no_direct in R; [exact R|].
      discriminate.
    + intros ttl ->. apply (ends_with_page_app [_]).
      eapply fetch_run_ends; eauto.
  - rewrite H. exists None, w1, [EvSearch brand (Raise e)].
    repeat split; discriminate.
Qed.

Lemma has_wikipedia_page_run (brand : string) (w : World) :
  has_wikipedia_page brand w =
  match try_titles brand (titles_to_try brand) w with
  | (Ret r, w1, l1) => log_before l1 (after_titles brand r w1)
  | (Raise e, w1, l1) => (Raise e, w1, l1)
  end.
Proof. reflexivity. Qed.

Lemma has_wikipedia_page_spec (brand : string) (w : World) :
  exists r w' evs,
    has_wikipedia_page brand w = (Ret (resolution_of r), w', evs)
    /\ (exists n, direct_titles evs = firstn n (titles_to_try brand))
    /\ (forall ttl, r = Some ttl -> ends_with_page evs ttl).
Proof.
  rewrite has_wikipedia_page_run.
  destruct (try_titles_spec brand (titles_to_try brand) w)
    as (r & w1 & evs1 & E & Hn & HN & HS).
  rewrite E. destruct r as [ttl|]; cbn [option_map].
  - exists (Some ttl), w1, (evs1 ++ []). split; [reflexivity|].
    rewrite app_nil_r. split; [exact Hn | exact HS].
  - destruct (after_titles_none_spec brand w1) as (r & w2 & evs2 & E2 & D & HS2).
    rewrite E2. exists r, w2, (evs1 ++ evs2). split; [reflexivity|]. split.
    + rewrite direct_titles_app, D, app_nil_r. exact Hn.
    + intros ttl Hr. apply ends_with_page_app. now apply HS2.
Qed.

(** ** The loops follow the fallback chain *)

Lemma try_titles_chain (brand : string) (titles : list string) (w : World) :
  exists r w' evs,
    try_titles brand titles w = (Ret (option_map found r), w', evs)
    /\ candidates_run brand titles w evs r w'.
Proof.
  revert w; induction titles as [|t rest IH]; intros w.
  - exists None, w, []. split; [reflexivity | constructor].
  - rewrite try_titles_cons.
    destruct (wiki_page t w) as [[ttl|e] w1] eqn:Ew.
    + exists (Some ttl), w1, [EvPage Direct t (Ret ttl)].
      split; [reflexivity|]. apply candidates_found. now constructor.
    + assert (Hcont : forall evs0 w2,
                 candidate_step brand t w
                   (EvPage Direct t (Raise e) :: evs0) None w2 ->
                 exists r w' evs,
                   log_before (EvPage Direct t (Raise e) :: evs0)
                     (try_titles brand rest w2)
                   = (Ret (option_map found r), w', evs)
                   /\ candidates_run brand (t :: rest) w evs r w').
      { intros evs0 w2 Hstep.
        destruct (IH w2) as (r & w' & evs & E & R). rewrite E.
        exists r, w', ((EvPage Direct t (Raise e) :: evs0) ++ evs).
        split; [reflexivity|]. eapply candidates_next; eauto. }
      destruct e as [options| |].
      * cbv zeta.
        destruct (try_fetch_each_spec Disambiguated
                    (firstn 3 (rank_options brand options)) w1)
          as (r & w2 & evs & E & R).
        rewrite E. destruct r as [ttl|]; cbn [option_map].
        -- exists (Some ttl), w2,
             (EvPage Direct t (Raise (DisambiguationError options)) :: evs).
           split; [reflexivity|]. apply candidates_found.
           eapply candidate_ambiguous; eauto.
        -- apply Hcont. eapply candidate_ambiguous; eauto.
      * apply (Hcont [] w1). apply candidate_failed; [exact Ew|].
        intros options; discriminate.
      * apply (Hcont [] w1). apply candidate_failed; [exact Ew|].
        intros options; discriminate.
Qed.

(** ** The candidate list *)

Lemma titles_to_try_eq (brand : string) :
  let aliases := dict_get WIKI_ALIASES brand [] in
  titles_to_try brand = aliases ++ (if mem brand aliases then [] else [brand]).
Proof.
  unfold titles_to_try, dict_get.
  destruct (dict_lookup WIKI_ALIASES brand) as [aliases|] eqn:E; cbv zeta.
  - rewrite dict_fromkeys_snoc, dict_fromkeys_id; [reflexivity|].
    eapply WIKI_ALIASES_NoDup; eauto.
  - cbn. unfold insert_key. cbn. rewrite String.eqb_refl. reflexivity.
Qed.

Lemma firstn_reaches_last (l : list string) (x : string) (n : nat) :
  ~ In x l -> In x (firstn n (l ++ [x])) -> firstn n (l ++ [x]) = l ++ [x].
Proof.
  intros Hx Hin. destruct (Nat.le_gt_cases n (List.length l)) as [Hle|Hgt].
  - rewrite firstn_app in Hin.
    replace (n - List.length l)%nat with 0%nat in Hin by lia.
    rewrite firstn_O, app_nil_r in Hin.
    elim Hx. rewrite <- (firstn_skipn n l). apply in_or_app. now left.
  - apply firstn_all2. rewrite length_app. simpl. lia.
Qed.

(** ** The properties of the specification *)

(** C5, amended. The candidate list has no repetition and consists of the
    configured aliases in their configured order, followed by the raw brand
    name unless the brand name is itself one of the aliases (it then keeps its
    place among them).  The candidate loop requests the candidates in the
    order of that list, stopping anywhere.  For a brand that is not one of its
    own aliases, a run in which the raw brand name is requested has requested
    every alias before it. *)
Theorem candidate_titles_order (brand : string) :
  let aliases := dict_get WIKI_ALIASES brand [] in
  NoDup (titles_to_try brand)
  /\ titles_to_try brand
     = aliases ++ (if mem brand aliases then [] else [brand])
  /\ (forall w, exists n,
         direct_titles (snd (has_wikipedia_page brand w))
         = firstn n (titles_to_try brand))
  /\ (mem brand aliases = false ->
      forall w,
        In brand (direct_titles (snd (has_wikipedia_page brand w))) ->
        direct_titles (snd (has_wikipedia_page brand w)) = aliases ++ [brand]).
Proof.
  cbv zeta. pose proof (titles_to_try_eq brand) as T. cbv zeta in T.
  assert (P : forall w, exists n,
             direct_titles (snd (has_wikipedia_page brand w))
             = firstn n (titles_to_try brand)).
  { intros w.
    destruct (has_wikipedia_page_spec brand w) as (r & w' & evs & E & Hn & _).
    rewrite E. exact Hn. }
  split; [apply dict_fromkeys_NoDup|]. split; [exact T|].
  split; [exact P|].
  intros Hm w Hin. destruct (P w) as [n Hn].
  rewrite T, Hm in Hn. rewrite Hn in *.
  apply firstn_reaches_last; [now apply mem_false | exact Hin].
Qed.

(** C6. When the request for a candidate ends in a disambiguation error, the
    options are sorted in ascending order of the key (the option does not
    contain the brand name as a substring, letter case set aside; length of
    the option): the ranked list is a rearrangement of the options in which
    an option that contains the brand never follows one that does not, and
    among options that agree on it a longer one never precedes a shorter
    one.  The first three of the sorted options are
    requested in that order; the first of them that yields a page makes the
    resolver return 1 with the title of that page, and nothing else is
    requested.  When none of them yields a page the resolver goes on with the
    candidates that remain. *)
Theorem disambiguation_options_tried
    (brand : string) (done : list string) (title : string)
    (rest : list string) (w0 w : World) (evs0 : list event)
    (options : list string) (w1 : World) :
  titles_to_try brand = done ++ title :: rest ->
  try_titles brand done w0 = (Ret None, w, evs0) ->
  wiki_page title w = (Raise (DisambiguationError options), w1) ->
  let ranked := rank_options brand options in
  Permutation ranked options
  /\ StronglySorted (ranked_before brand) ranked
  /\ exists evs r w2,
       fetch_run Disambiguated (firstn 3 ranked) w1 evs r w2
       /\ let log :=
            evs0 ++ EvPage Direct title (Raise (DisambiguationError options))
                 :: evs in
          match r with
          | Some ttl =>
              has_wikipedia_page brand w0 = (Ret (1%Z, Some ttl), w2, log)
          | None =>
              has_wikipedia_page brand w0
              = log_before log
                  (bind (try_titles brand rest) (after_titles brand) w2)
          end.
Proof.
  intros Ht Hdone Hpage ranked.
  split; [apply sorted_by_perm|]. split; [apply rank_options_ranked|].
  destruct (try_fetch_each_spec Disambiguated (firstn 3 ranked) w1)
    as (r & w2 & evs & E & R).
  exists evs, r, w2. split; [exact R|]. cbv zeta.
  rewrite has_wikipedia_page_run, Ht.
  rewrite (try_titles_app _ _ _ _ _ _ Hdone), try_titles_cons, Hpage.
  cbv zeta. fold ranked. rewrite E.
  destruct r as [ttl|]; cbn [option_map log_before].
  - cbn. now rewrite app_nil_r.
  - rewrite log_before_app. unfold bind.
    destruct (try_titles brand rest w2) as [[[v|e] w3] l3];
      cbn [log_before]; [|reflexivity].
    now rewrite log_before_app.
Qed.

(** C7. When the candidate loop ends without a page, the brand name is
    searched for.  The first five hits at most are requested in the order of
    the hits; the first that yields a page makes the resolver return 1 with
    the title of that page; when none does, or when the search itself fails,
    the resolver returns 0 and no title. *)
Theorem search_fallback_after_candidates
    (brand : string) (w0 w : World) (evs0 : list event) :
  try_titles brand (titles_to_try brand) w0 = (Ret None, w, evs0) ->
  match wiki_search brand w with
  | (Ret hits, w1) =>
      exists evs r w2,
        fetch_run SearchHit (firstn 5 hits) w1 evs r w2
        /\ (List.length evs <= 5)%nat
        /\ has_wikipedia_page brand w0
           = (Ret (resolution_of r), w2,
              evs0 ++ EvSearch brand (Ret hits) :: evs)
  | (Raise e, w1) =>
      has_wikipedia_page brand w0
      = (Ret (0%Z, None), w1, evs0 ++ [EvSearch brand (Raise e)])
  end.
Proof.
  intros H. rewrite has_wikipedia_page_run, H, after_titles_none.
  pose proof (search_fallback_spec brand w) as S.
  destruct (wiki_search brand w) as [[hits|e] w1].
  - destruct S as (r & w2 & evs & R & ->).
    exists evs, r, w2. split; [exact R|]. split.
    + apply fetch_run_length in R. rewrite length_firstn in R. lia.
    + destruct r; reflexivity.
  - rewrite S. reflexivity.
Qed.

(** C8. Whatever the service answers to each request (a page, a
    disambiguation error, a page error, any other exception), the resolver
    returns a value, so no exception leaves it, and its run is the fallback
    chain: a request that fails is followed by the next step of the chain,
    which is the next disambiguation option, the next candidate title, the
    search, or the next search hit; the run ends with 1 at the first page
    obtained, and with 0 only after every step of the chain has failed. *)
Theorem resolver_never_raises (brand : string) (w : World) :
  exists v w' evs,
    has_wikipedia_page brand w = (Ret v, w', evs)
    /\ fallback_chain brand w evs v w'.
Proof.
  rewrite has_wikipedia_page_run.
  destruct (try_titles_chain brand (titles_to_try brand) w)
    as (r & w1 & evs1 & E & C).
  rewrite E. destruct r as [ttl|]; cbn [option_map].
  - exists (1%Z, Some ttl), w1, evs1. split.
    + cbn. now rewrite app_nil_r.
    + exists evs1, (Some ttl), w1. auto.
  - rewrite after_titles_none.
    pose proof (search_fallback_spec brand w1) as F.
    destruct (wiki_search brand w1) as [[hits|e] w2] eqn:Es.
    + destruct F as (r & w3 & evs & R & ->).
      exists (resolution_of r), w3, (evs1 ++ EvSearch brand (Ret hits) :: evs).
      split; [destruct r; reflexivity|].
      exists evs1, None, w1. split; [exact C|].
      exists (EvSearch brand (Ret hits) :: evs), r.
      split; [|auto]. eapply search_hits; eauto.
    + rewrite F.
      exists (0%Z, None), w2, (evs1 ++ [EvSearch brand (Raise e)]).
      split; [reflexivity|].
      exists evs1, None, w1. split; [exact C|].
      exists [EvSearch brand (Raise e)], None.
      split; [|auto]. now apply search_failed.
Qed.

(** C10. The resolver returns a pair whose flag is 0 or 1 and whose title is
    absent exactly when the flag is 0; when the flag is 1 the title is the
    title of the page obtained by the last request of the run. *)
Theorem resolution_well_formed (brand : string) (w : World) :
  exists flag title w' evs,
    has_wikipedia_page brand w = (Ret (flag, title), w', evs)
    /\ (flag = 0%Z \/ flag = 1%Z)
    /\ (title = None <-> flag = 0%Z)
    /\ (flag = 1%Z ->
        exists ttl, title = Some ttl /\ ends_with_page evs ttl).
Proof.
  destruct (has_wikipedia_page_spec brand w) as (r & w' & evs & E & _ & HS).
  destruct r as [ttl|].
  - exists 1%Z, (Some ttl), w', evs. split; [exact E|].
    split; [now right|]. split; [split; discriminate|].
    intros _. exists ttl. split; [reflexivity | now apply HS].
  - exists 0%Z, None, w', evs. split; [exact E|].
    split; [now left|]. split; [tauto | discriminate].
Qed.

End WithService.

(** ** Runs on the small service *)

(** C5 as it is worded fails on the table of the program: for the brand
    [Jabra] the alias [Jabra (company)] stands after the raw brand name. *)
Lemma aliases_before_brand_fails :
  ~ (forall (brand : string) (aliases : list string) (a : string),
        dict_lookup WIKI_ALIASES brand = Some aliases ->
        In a aliases ->
        a <> brand ->
        exists l1 l2 l3, titles_to_try brand = l1 ++ a :: l2 ++ brand :: l3).
Proof.
  intros H.
  destruct (H "Jabra" ["Jabra"; "Jabra (company)"] "Jabra (company)")
    as (l1 & l2 & l3 & E).
  - reflexivity.
  - right; left; reflexivity.
  - discriminate.
  - change (titles_to_try "Jabra") with ["Jabra"; "Jabra (company)"] in E.
    destruct l1 as [|x [|y l1]]; cbn in E.
    + discriminate E.
    + injection E as _ E. destruct l2; discriminate E.
    + injection E as _ _ E. destruct l1; discriminate E.
Qed.

(** The raw name [Jabra] is requested first, the alias after it. *)
Example jabra_run :
  direct_titles (snd (toy_resolve "Jabra")) = ["Jabra"; "Jabra (company)"].
Proof. reflexivity. Qed.

Lemma candidate_titles_order_witness :
  mem "Apple" (dict_get WIKI_ALIASES "Apple" []) = false
  /\ In "Apple" (direct_titles (snd (toy_resolve "Apple")))
  /\ direct_titles (snd (toy_resolve "Apple")) = ["Apple Inc."; "Apple"].
Proof.
  split; [reflexivity|]. split; [right; left; reflexivity|].
  apply (candidate_titles_order nat toy_page toy_search "Apple");
    [reflexivity | right; left; reflexivity].
Defined.

(** For [Apple] the alias fails, the raw name is ambiguous, and the second
    of the ranked options yields the page. *)
Example apple_run :
  toy_resolve "Apple"
  = (Ret (1%Z, Some "Apple Inc."), 4%nat,
     [EvPage Direct "Apple Inc." (Raise PageError);
      EvPage Direct "Apple"
        (Raise (DisambiguationError
                  ["Apple (fruit)"; "Big Apple"; "Apple Inc"; "Fiona";
                   "Apple Records"]));
      EvPage Disambiguated "Big Apple" (Raise PageError);
      EvPage Disambiguated "Apple Inc" (Ret "Apple Inc.")]).
Proof. reflexivity. Qed.

Lemma disambiguation_options_tried_witness :
  let options :=
    ["Apple (fruit)"; "Big Apple"; "Apple Inc"; "Fiona"; "Apple Records"] in
  let ranked := rank_options "Apple" options in
  Permutation ranked options
  /\ StronglySorted (ranked_before "Apple") ranked
  /\ exists evs r w2,
       fetch_run nat toy_page Disambiguated (firstn 3 ranked) 2 evs r w2
       /\ let log :=
            [EvPage Direct "Apple Inc." (Raise PageError)]
            ++ EvPage Direct "Apple" (Raise (DisambiguationError options))
            :: evs in
          match r with
          | Some ttl =>
              has_wikipedia_page nat toy_page toy_search "Apple" 0
              = (Ret (1%Z, Some ttl), w2, log)
          | None =>
              has_wikipedia_page nat toy_page toy_search "Apple" 0
              = log_before log
                  (bind (try_titles nat toy_page "Apple" [])
                        (after_titles nat toy_page toy_search "Apple") w2)
          end.
Proof.
  exact (disambiguation_options_tried nat toy_page toy_search
           "Apple" ["Apple Inc."] "Apple" [] 0 1
           [EvPage Direct "Apple Inc." (Raise PageError)]
           ["Apple (fruit)"; "Big Apple"; "Apple Inc"; "Fiona";
            "Apple Records"] 2 eq_refl eq_refl eq_refl).
Defined.

Lemma search_fallback_after_candidates_witness :
  exists evs r w2,
    fetch_run nat toy_page SearchHit
      (firstn 5 ["Acme"; "Acme Corporation"; "Acme Inc"]) 2 evs r w2
    /\ (List.length evs <= 5)%nat
    /\ toy_resolve "Acme"
       = (Ret (resolution_of r), w2,
          [EvPage Direct "Acme" (Raise PageError)]
          ++ EvSearch "Acme" (Ret ["Acme"; "Acme Corporation"; "Acme Inc"])
          :: evs).
Proof.
  exact (search_fallback_after_candidates nat toy_page toy_search "Acme" 0 1
           [EvPage Direct "Acme" (Raise PageError)] eq_refl).
Defined.

End ResolverFacts.

(* ================================================================== *)
(** * The association tester: properties *)
(* ================================================================== *)

Module TesterFacts.
Import Tester.
Local Open Scope list_scope.
Local Open Scope Z_scope.

(** ** Labels *)

Lemma insert_label_In (x y : Z) (l : list Z) :
  In y (insert_label x l) <-> y = x \/ In y l.
Proof.
  induction l as [|z l IH]; simpl.
  - intuition.
  - destruct (x <? z) eqn:E1; [simpl; intuition|].
    destruct (x =? z) eqn:E2.
    + apply Z.eqb_eq in E2. subst. simpl. intuition.
    + simpl. rewrite IH. intuition.
Qed.

Lemma labels_In (xs : list Z) (y : Z) : In y (labels xs) <-> In y xs.
Proof.
  induction xs as [|x xs IH]; simpl; [tauto|].
  rewrite insert_label_In, IH. intuition.
Qed.

Lemma insert_label_sorted (x : Z) (l : list Z) :
  StronglySorted Z.lt l -> StronglySorted Z.lt (insert_label x l).
Proof.
  induction 1 as [|y l Hs IH Hy]; simpl.
  - repeat constructor.
  - destruct (x <? y) eqn:E1.
    + apply Z.ltb_lt in E1. constructor; [now constructor|].
      constructor; [exact E1|].
      eapply Forall_impl; [|exact Hy]. intros z Hz. lia.
    + destruct (x =? y) eqn:E2; [now constructor|].
      apply Z.ltb_ge in E1. apply Z.eqb_neq in E2.
      constructor; [exact IH|].
      apply Forall_forall. intros z Hz. apply insert_label_In in Hz.
      destruct Hz as [->|Hz]; [lia|].
      rewrite Forall_forall in Hy. now apply Hy.
Qed.

(** The labels of an axis are in strictly ascending order. *)
Lemma labels_sorted (xs : list Z) : StronglySorted Z.lt (labels xs).
Proof.
  induction xs as [|x xs IH]; simpl; [constructor|].
  now apply insert_label_sorted.
Qed.

Lemma sorted_NoDup (l : list Z) : StronglySorted Z.lt l -> NoDup l.
Proof.
  induction 1 as [|y l Hs IH Hy]; constructor; [|exact IH].
  intros Hin. rewrite Forall_forall in Hy. specialize (Hy _ Hin). lia.
Qed.

Lemma labels_NoDup (xs : list Z) : NoDup (labels xs).
Proof. apply sorted_NoDup, labels_sorted. Qed.

Lemma labels_nil (xs : list Z) : labels xs = [] <-> xs = [].
Proof.
  split; [|now intros ->].
  destruct xs as [|x xs]; [reflexivity|]. intros E.
  assert (H : In x (labels (x :: xs))) by (apply labels_In; now left).
  rewrite E in H. destruct H.
Qed.

(** ** Sums of counts *)

Lemma count_if_cons (P : sample -> bool) (s : sample) (df : list sample) :
  count_if P (s :: df) = (if P s then 1 else 0) + count_if P df.
Proof.
  unfold count_if. simpl. destruct (P s); simpl List.length; lia.
Qed.

Lemma count_if_nonneg (P : sample -> bool) (df : list sample) :
  0 <= count_if P df.
Proof. unfold count_if. lia. Qed.

Lemma count_if_ext (P Q : sample -> bool) (df : list sample) :
  (forall s, P s = Q s) -> count_if P df = count_if Q df.
Proof.
  intros H. unfold count_if. now rewrite (filter_ext P Q H).
Qed.

Lemma count_if_pos (P : sample -> bool) (df : list sample) (s : sample) :
  In s df -> P s = true -> 0 < count_if P df.
Proof.
  intros Hin HP. unfold count_if.
  assert (H : In s (filter P df)) by (apply filter_In; auto).
  destruct (filter P df); [destruct H | simpl; lia].
Qed.

Lemma count_if_true (df : list sample) :
  count_if (fun _ => true) df = Z.of_nat (List.length df).
Proof.
  unfold count_if. induction df as [|s df IH]; simpl; [reflexivity|].
  simpl in IH. lia.
Qed.

Lemma zsum_map_add {A} (f g : A -> Z) (l : list A) :
  zsum (map (fun x => f x + g x) l) = zsum (map f l) + zsum (map g l).
Proof. induction l as [|x l IH]; simpl; lia. Qed.

Lemma zsum_map_zero {A} (l : list A) : zsum (map (fun _ => 0) l) = 0.
Proof. induction l as [|x l IH]; simpl; lia. Qed.

Lemma zsum_indicator (a : Z) (l : list Z) :
  NoDup l -> In a l -> zsum (map (fun x => if a =? x then 1 else 0) l) = 1.
Proof.
  induction 1 as [|y l Hy Hl IH]; intros Hin; [destruct Hin|].
  simpl. destruct Hin as [->|Hin].
  - rewrite Z.eqb_refl.
    rewrite (map_ext_in _ (fun _ => 0)), zsum_map_zero; [reflexivity|].
    intros x Hx. destruct (a =? x) eqn:E; [|reflexivity].
    apply Z.eqb_eq in E. subst. contradiction.
  - rewrite (IH Hin). destruct (a =? y) eqn:E; [|reflexivity].
    apply Z.eqb_eq in E. subst. contradiction.
Qed.

(** Splitting the rows counted by [g] according to a key [f] whose values
    are the distinct elements of [l] loses none and counts none twice. *)
Lemma sum_counts (l : list Z) (f : sample -> Z) (g : sample -> bool)
    (df : list sample) :
  NoDup l ->
  (forall s, In s df -> In (f s) l) ->
  zsum (map (fun x => count_if (fun s => (f s =? x) && g s) df) l)
  = count_if g df.
Proof.
  intros Hl. induction df as [|s df IH]; intros Hf.
  - apply zsum_map_zero.
  - rewrite (map_ext _ (fun x =>
               (if (f s =? x) && g s then 1 else 0)
               + count_if (fun s0 => (f s0 =? x) && g s0) df))
      by (intros x; apply count_if_cons).
    rewrite zsum_map_add, IH, count_if_cons
      by (intros s0 H0; apply Hf; now right).
    f_equal. destruct (g s).
    + rewrite (map_ext _ (fun x => if f s =? x then 1 else 0))
        by (intros x; now rewrite andb_true_r).
      apply zsum_indicator; [exact Hl | apply Hf; now left].
    + rewrite (map_ext _ (fun _ => 0))
        by (intros x; now rewrite andb_false_r).
      apply zsum_map_zero.
Qed.

(** ** The cross-tabulation *)

Lemma row_sum_crosstab (df : list sample) (r : Z) :
  zsum (map (fun c => cell df r c) (labels (map Mentioned df)))
  = count_if (fun s => HasWiki s =? r) df.
Proof.
  unfold cell.
  rewrite (map_ext _ (fun c =>
             count_if (fun s => (Mentioned s =? c) && (HasWiki s =? r)) df))
    by (intros c; apply count_if_ext; intros s; apply andb_comm).
  apply sum_counts; [apply labels_NoDup|].
  intros s Hs. apply labels_In, in_map, Hs.
Qed.

Lemma col_sum_crosstab (df : list sample) (c : Z) :
  zsum (map (fun r => cell df r c) (labels (map HasWiki df)))
  = count_if (fun s => Mentioned s =? c) df.
Proof.
  unfold cell. apply sum_counts; [apply labels_NoDup|].
  intros s Hs. apply labels_In, in_map, Hs.
Qed.

(** The counts of the table add up to the number of rows of the frame. *)
Lemma values_sum_crosstab (df : list sample) :
  values_sum (crosstab df) = Z.of_nat (List.length df).
Proof.
  unfold values_sum, crosstab. cbn [values]. rewrite map_map.
  rewrite (map_ext _ (fun r => count_if (fun s => HasWiki s =? r) df))
    by (intros r; apply row_sum_crosstab).
  rewrite (map_ext _ (fun r =>
             count_if (fun s => (HasWiki s =? r) && true) df))
    by (intros r; apply count_if_ext; intros s; now rewrite andb_true_r).
  rewrite sum_counts; [apply count_if_true | apply labels_NoDup|].
  intros s Hs. apply labels_In, in_map, Hs.
Qed.

(** The table is empty exactly when the frame is. *)
Lemma size_crosstab_zero (df : list sample) :
  size (crosstab df) = 0 <-> df = [].
Proof.
  split; [|now intros ->].
  destruct df as [|s df]; [reflexivity|]. intros H. exfalso.
  unfold size, crosstab in H. cbn [index columns] in H.
  assert (H1 : labels (map HasWiki (s :: df)) <> [])
    by (rewrite labels_nil; discriminate).
  assert (H2 : labels (map Mentioned (s :: df)) <> [])
    by (rewrite labels_nil; discriminate).
  destruct (labels (map HasWiki (s :: df))); [congruence|].
  destruct (labels (map Mentioned (s :: df))); [congruence|].
  simpl List.length in H. lia.
Qed.

Lemma cells_nonneg (df : list sample) :
  Forall (Forall (Z.le 0)) (values (crosstab df)).
Proof.
  unfold crosstab. cbn [values].
  apply Forall_forall. intros row Hrow. apply in_map_iff in Hrow.
  destruct Hrow as (r & <- & _).
  apply Forall_forall. intros x Hx. apply in_map_iff in Hx.
  destruct Hx as (c & <- & _). apply count_if_nonneg.
Qed.

(** Every row label carries at least one row of the frame, ... *)
Lemma row_sums_pos (df : list sample) :
  Forall (Z.lt 0) (row_sums (values (crosstab df))).
Proof.
  unfold row_sums, crosstab. cbn [values]. rewrite map_map.
  apply Forall_forall. intros x Hx. apply in_map_iff in Hx.
  destruct Hx as (r & <- & Hr). rewrite row_sum_crosstab.
  apply labels_In, in_map_iff in Hr. destruct Hr as (s & <- & Hs).
  apply (count_if_pos _ _ s Hs). apply Z.eqb_refl.
Qed.

(** ... and so does every column label. *)
Lemma col_sums_pos (df : list sample) :
  Forall (Z.lt 0) (col_sums (values (crosstab df))).
Proof.
  unfold col_sums, crosstab. cbn [values].
  set (rows := labels (map HasWiki df)).
  set (cols := labels (map Mentioned df)).
  apply Forall_forall. intros x Hx. apply in_map_iff in Hx.
  destruct Hx as (j & <- & Hj). apply in_seq in Hj.
  destruct rows as [|r0 rows'] eqn:Er; [simpl in Hj; lia|].
  cbn [map hd] in Hj. rewrite length_map in Hj.
  rewrite <- Er. rewrite map_map.
  rewrite (map_ext _ (fun r => cell df r (nth j cols 0))).
  - unfold rows. rewrite col_sum_crosstab.
    assert (Hc : In (nth j cols 0) cols) by (apply nth_In; lia).
    apply labels_In, in_map_iff in Hc. destruct Hc as (s & Es & Hs).
    apply (count_if_pos _ _ s Hs). rewrite Es. apply Z.eqb_refl.
  - intros r.
    rewrite (nth_indep _ 0 (cell df r 0)) by (rewrite length_map; lia).
    apply (map_nth (fun c => cell df r c)).
Qed.

(** ** A non-empty frame never reaches the degenerate branch *)

Lemma nonempty_not_degenerate (df : list sample) :
  df <> [] ->
  (size (crosstab df) =? 0) || (values_sum (crosstab df) =? 0) = false.
Proof.
  intros H. apply orb_false_iff. split; apply Z.eqb_neq.
  - now rewrite size_crosstab_zero.
  - rewrite values_sum_crosstab. destruct df; [congruence | simpl; lia].
Qed.

Lemma total_pos (df : list sample) :
  df <> [] -> 0 < zsum (row_sums (values (crosstab df))).
Proof.
  intros H. change (0 < values_sum (crosstab df)).
  rewrite values_sum_crosstab. destruct df; [congruence | simpl; lia].
Qed.

Lemma py_sqrt_nonneg (x : R) : (0 <= x)%R -> py_sqrt x = Ok (sqrt x).
Proof.
  intros H. unfold py_sqrt. destruct (Rlt_dec x 0) as [L|_]; [lra|reflexivity].
Qed.

(** On a non-empty frame the tester hands the table to [chi2_contingency]
    once; when that returns a statistic that is not negative, the tester
    reports it with [phi] the square root of the statistic over the number of
    rows. *)
Lemma chi_square_on_haswiki_nonempty
    (f : list (list Z) -> outcome (R * R * Z)) (df : list sample)
    (stat pval : R) (d : Z) :
  df <> [] ->
  f (values (crosstab df)) = Ok (stat, pval, d) ->
  (0 <= stat)%R ->
  chi_square_on_haswiki f df
  = (Ok {| chi2 := stat; p := pval; dof := d;
           phi := Finite (sqrt (stat / IZR (Z.of_nat (List.length df)))) |},
     [values (crosstab df)]).
Proof.
  intros Hne Hf Hstat. unfold chi_square_on_haswiki.
  rewrite (nonempty_not_degenerate df Hne), Hf.
  assert (Hn : 0 < Z.of_nat (List.length df))
    by (destruct df; [congruence | simpl; lia]).
  apply Z.ltb_lt in Hn as Hb. rewrite Hb.
  rewrite py_sqrt_nonneg; [reflexivity|].
  apply IZR_lt in Hn. unfold Rdiv.
  apply Rmult_le_pos; [exact Hstat|]. left. now apply Rinv_0_lt_compat.
Qed.

(** ** Pearson's statistic meets the contract *)

Lemma rsum_nonneg {A} (f : A -> R) (l : list A) :
  (forall x, In x l -> (0 <= f x)%R) -> (0 <= rsum (map f l))%R.
Proof.
  induction l as [|x l IH]; intros H; simpl; [lra|].
  assert (0 <= f x)%R by (apply H; now left).
  assert (0 <= rsum (map f l))%R by (apply IH; intros y Hy; apply H; now right).
  lra.
Qed.

Lemma pearson_term_nonneg (o e : R) :
  (0 < e)%R -> (0 <= pearson_term o e)%R.
Proof.
  intros He. unfold pearson_term, Rdiv.
  apply Rmult_le_pos; [|left; now apply Rinv_0_lt_compat].
  change ((o - e) * (o - e))%R with (Rsqr (o - e)). apply Rle_0_sqr.
Qed.

Lemma pearson_statistic_nonneg (obs : list (list Z)) :
  Forall (Z.lt 0) (row_sums obs) ->
  Forall (Z.lt 0) (col_sums obs) ->
  0 < zsum (row_sums obs) ->
  (0 <= pearson_statistic obs)%R.
Proof.
  intros Hr Hc Hn. unfold pearson_statistic. cbv zeta.
  apply rsum_nonneg. intros row Hrow.
  apply rsum_nonneg. intros [o c] Hoc. cbn [fst snd].
  apply pearson_term_nonneg.
  assert (Hrow' : 0 < zsum row).
  { rewrite Forall_forall in Hr. apply Hr. unfold row_sums. now apply in_map. }
  assert (Hc' : 0 < c).
  { rewrite Forall_forall in Hc. apply Hc. eapply in_combine_r; eauto. }
  apply IZR_lt in Hrow', Hc', Hn. unfold Rdiv.
  apply Rmult_lt_0_compat; [now apply Rmult_lt_0_compat|].
  now apply Rinv_0_lt_compat.
Qed.

Lemma Forall_forallb {A} (P : A -> Prop) (b : A -> bool) (l : list A) :
  (forall x, P x -> b x = true) -> Forall P l -> forallb b l = true.
Proof.
  intros H F. apply forallb_forall. rewrite Forall_forall in F. auto.
Qed.

Lemma pearson_contingency_contract (sf : R -> Z -> R) :
  chi2_contingency_contract (pearson_contingency sf).
Proof.
  intros obs Hnn Hr Hc Hn. unfold pearson_contingency.
  rewrite (Forall_forallb (Forall (Z.le 0)) (forallb (Z.leb 0)) obs), 
    (Forall_forallb (Z.lt 0) (Z.ltb 0) _ (fun x => proj2 (Z.ltb_lt 0 x)) Hr),
    (Forall_forallb (Z.lt 0) (Z.ltb 0) _ (fun x => proj2 (Z.ltb_lt 0 x)) Hc),
    (proj2 (Z.ltb_lt _ _) Hn); [|intros row Hrow|exact Hnn].
  - cbn [andb]. eexists _, _, _. split; [reflexivity|].
    now apply pearson_statistic_nonneg.
  - eapply Forall_forallb; [|exact Hrow]. intros x. apply Z.leb_le.
Qed.

(** ** Tables with a cell equal to 0 *)

Lemma two_distinct_length (l : list Z) (a b : Z) :
  In a l -> In b l -> a <> b -> (2 <= List.length l)%nat.
Proof.
  intros Ha Hb Hab. destruct l as [|x [|y l]]; simpl in *; lia.
Qed.

Lemma zero_cell_labels (df : list sample) :
  In 0 (List.concat (values (crosstab df))) ->
  exists r c,
    In r (index (crosstab df)) /\ In c (columns (crosstab df))
    /\ cell df r c = 0.
Proof.
  intros H. apply in_concat in H. destruct H as (row & Hrow & H0).
  unfold crosstab in *. cbn [values index columns] in *.
  apply in_map_iff in Hrow. destruct Hrow as (r & <- & Hr).
  apply in_map_iff in H0. destruct H0 as (c & E & Hc).
  exists r, c. auto.
Qed.

(** A table built from a frame that has a cell equal to 0 has two rows and
    two columns at least: the row and the column of that cell each hold a
    row of the frame, which then lies in another column and another row. *)
Lemma zero_cell_two_by_two (df : list sample) :
  In 0 (List.concat (values (crosstab df))) ->
  (2 <= List.length (index (crosstab df)))%nat
  /\ (2 <= List.length (columns (crosstab df)))%nat.
Proof.
  intros H. destruct (zero_cell_labels df H) as (r & c & Hr & Hc & E).
  unfold crosstab in *. cbn [index columns] in *.
  pose proof Hr as Hr'. pose proof Hc as Hc'.
  apply labels_In, in_map_iff in Hr'. destruct Hr' as (s1 & E1 & Hs1).
  apply labels_In, in_map_iff in Hc'. destruct Hc' as (s2 & E2 & Hs2).
  split.
  - apply (two_distinct_length _ (HasWiki s2) r); [|exact Hr|].
    + apply labels_In, in_map, Hs2.
    + intros Heq.
      assert (P : 0 < cell df r c).
      { unfold cell. apply (count_if_pos _ _ s2 Hs2).
        rewrite Heq, E2, !Z.eqb_refl. reflexivity. }
      lia.
  - apply (two_distinct_length _ (Mentioned s1) c); [|exact Hc|].
    + apply labels_In, in_map, Hs1.
    + intros Heq.
      assert (P : 0 < cell df r c).
      { unfold cell. apply (count_if_pos _ _ s1 Hs1).
        rewrite Heq, E1, !Z.eqb_refl. reflexivity. }
      lia.
Qed.

(** ** The properties of the specification *)

Section WithScipy.

Variable chi2_contingency : list (list Z) -> outcome (R * R * Z).

Local Abbreviation chi_square_on_haswiki :=
  (Tester.chi_square_on_haswiki chi2_contingency).

(** C3. When the table built from the frame is empty, or its counts add up
    to zero, the tester reports a statistic of 0, a p-value of 1, 0 degrees of
    freedom and a [phi] of 0, and [chi2_contingency] is not called. *)
Theorem degenerate_table_report (df : list sample) :
  size (crosstab df) = 0 \/ values_sum (crosstab df) = 0 ->
  chi_square_on_haswiki df
  = (Ok {| chi2 := 0%R; p := 1%R; dof := 0; phi := Finite 0%R |}, []).
Proof.
  intros H. unfold Tester.chi_square_on_haswiki.
  replace ((size (crosstab df) =? 0) || (values_sum (crosstab df) =? 0))
    with true; [reflexivity|].
  symmetry. apply orb_true_iff.
  destruct H as [H|H]; [left|right]; now apply Z.eqb_eq.
Qed.

(** C9. When the table built from the frame has exactly one cell equal to 0
    and all the others positive, the tester does not fail.  Such a table has
    two rows and two columns at least, and all its row and column sums are
    positive, so that every expected frequency is positive although one count
    is 0; [chi2_contingency], which by its contract returns on such a table,
    is called on it once; the tester reports the statistic, the p-value and
    the degrees of freedom that it returns, and as [phi] the square root of
    the statistic over the total of the table. *)
Theorem one_zero_cell_computable (df : list sample) :
  chi2_contingency_contract chi2_contingency ->
  one_zero_cell (values (crosstab df)) ->
  (2 <= List.length (index (crosstab df)))%nat
  /\ (2 <= List.length (columns (crosstab df)))%nat
  /\ Forall (Z.lt 0) (row_sums (values (crosstab df)))
  /\ Forall (Z.lt 0) (col_sums (values (crosstab df)))
  /\ exists stat pval d,
       chi2_contingency (values (crosstab df)) = Ok (stat, pval, d)
       /\ (0 <= stat)%R
       /\ chi_square_on_haswiki df
          = (Ok {| chi2 := stat; p := pval; dof := d;
                   phi := Finite
                            (sqrt (stat / IZR (values_sum (crosstab df)))) |},
             [values (crosstab df)]).
Proof.
  intros Hcontract (pre & post & Hcells & _ & _).
  assert (H0 : In 0 (List.concat (values (crosstab df)))).
  { rewrite Hcells. apply in_or_app. right. now left. }
  assert (Hne : df <> []).
  { intros ->. cbn in H0. exact H0. }
  destruct (zero_cell_two_by_two df H0) as [R2 C2].
  split; [exact R2|]. split; [exact C2|].
  split; [apply row_sums_pos|]. split; [apply col_sums_pos|].
  destruct (Hcontract (values (crosstab df)))
    as (stat & pval & d & Hf & Hstat).
  - apply cells_nonneg.
  - apply row_sums_pos.
  - apply col_sums_pos.
  - now apply total_pos.
  - exists stat, pval, d. split; [exact Hf|]. split; [exact Hstat|].
    rewrite values_sum_crosstab.
    now apply chi_square_on_haswiki_nonempty.
Qed.

End WithScipy.

(** ** Runs *)

(** A frame of three rows: nobody without a page is mentioned. *)
Example crosstab_demo :
  crosstab demo_frame
  = {| index := [0; 1]; columns := [0; 1]; values := [[1; 0]; [1; 1]] |}.
Proof. reflexivity. Qed.

Lemma degenerate_table_report_witness :
  chi_square_on_haswiki (pearson_contingency constant_sf) []
  = (Ok {| chi2 := 0%R; p := 1%R; dof := 0; phi := Finite 0%R |}, []).
Proof.
  apply (degenerate_table_report (pearson_contingency constant_sf) []).
  left. reflexivity.
Defined.

Lemma one_zero_cell_computable_witness :
  (2 <= List.length (index (crosstab demo_frame)))%nat
  /\ (2 <= List.length (columns (crosstab demo_frame)))%nat
  /\ Forall (Z.lt 0) (row_sums (values (crosstab demo_frame)))
  /\ Forall (Z.lt 0) (col_sums (values (crosstab demo_frame)))
  /\ exists stat pval d,
       pearson_contingency constant_sf (values (crosstab demo_frame))
       = Ok (stat, pval, d)
       /\ (0 <= stat)%R
       /\ chi_square_on_haswiki (pearson_contingency constant_sf) demo_frame
          = (Ok {| chi2 := stat; p := pval; dof := d;
                   phi := Finite
                            (sqrt (stat
                                   / IZR (values_sum (crosstab demo_frame)))) |},
             [values (crosstab demo_frame)]).
Proof.
  apply (one_zero_cell_computable (pearson_contingency constant_sf)
           demo_frame).
  - apply pearson_contingency_contract.
  - exists [1], [1; 1]. split; [reflexivity|].
    split; repeat constructor.
Defined.

End TesterFacts.

(* ================================================================== *)
(** * The association tester in binary64 arithmetic: properties *)
(* ================================================================== *)

Module Tester64Facts.
Import Tester TesterFacts Tester64.
Local Open Scope list_scope.
Local Open Scope Z_scope.

Example twelve_rows_table :
  values (crosstab twelve_rows) = [[2; 0]; [2; 8]].
Proof. reflexivity. Qed.

(** The run on the twelve rows: [phi] is the rounded square root of
    1.875 / 12, and its square times 12 is not 1.875 any more. *)
Example twelve_rows_run :
  let phi_demo :=
    PrimFloat.sqrt (PrimFloat.div statistic_demo (of_int 12)) in
  chi_square_on_haswiki answers_demo twelve_rows
  = (Ok {| chi2 := statistic_demo;
           p := PrimFloat.div (of_int 171) (of_int 1000);
           dof := 1; phi := phi_demo |},
     [[[2; 0]; [2; 8]]])
  /\ PrimFloat.ltb statistic_demo
       (PrimFloat.mul (PrimFloat.mul phi_demo phi_demo) (of_int 12))
     = true.
Proof. split; vm_compute; reflexivity. Qed.

(** The same holds if the statistic is one of the two binary64 neighbours of
    1.875, as it may be when it is itself the result of rounded
    operations. *)
Example twelve_rows_neighbours :
  let gap (stat : float) :=
    let root := PrimFloat.sqrt (PrimFloat.div stat (of_int 12)) in
    PrimFloat.eqb (PrimFloat.mul (PrimFloat.mul root root) (of_int 12)) stat in
  gap (PrimFloat.next_down statistic_demo) = false
  /\ gap statistic_demo = false
  /\ gap (PrimFloat.next_up statistic_demo) = false.
Proof. repeat split; vm_compute; reflexivity. Qed.

(** C4 as it is worded fails in the arithmetic of the program: on the frame
    of twelve rows, whose table is not degenerate, the square of the reported
    [phi] times the total of the table is not the reported statistic. *)
Lemma phi_square_identity_fails :
  ~ (forall (f : list (list Z) -> outcome (float * float * Z))
            (df : list sample) (rep : report)
            (calls : list (list (list Z))),
        size (crosstab df) <> 0 ->
        values_sum (crosstab df) <> 0 ->
        chi_square_on_haswiki f df = (Ok rep, calls) ->
        PrimFloat.eqb
          (PrimFloat.mul (PrimFloat.mul (phi rep) (phi rep))
             (of_int (values_sum (crosstab df))))
          (chi2 rep)
        = true).
Proof.
  intros H.
  specialize (H answers_demo twelve_rows
                {| chi2 := statistic_demo;
                   p := PrimFloat.div (of_int 171) (of_int 1000);
                   dof := 1;
                   phi := PrimFloat.sqrt
                            (PrimFloat.div statistic_demo (of_int 12)) |}
                [[[2; 0]; [2; 8]]]).
  assert (E : false = true).
  { apply H.
    - vm_compute. discriminate.
    - vm_compute. discriminate.
    - vm_compute. reflexivity. }
  discriminate E.
Qed.

(** C4, amended. On a table that is not degenerate, for which
    [chi2_contingency] returns a statistic whose quotient by the number of
    rows is not below zero, the tester reports as [phi] the binary64 square
    root of the binary64 quotient of the statistic by the total of the counts
    of the table, the statistic, the p-value and the degrees of freedom being
    those that [chi2_contingency] returned.  Two roundings stand between
    [phi] and the statistic, so that the square of [phi] times the total need
    not be the statistic. *)
Theorem phi_is_rounded_root
    (f : list (list Z) -> outcome (float * float * Z))
    (df : list sample) (stat pval : float) (d : Z) :
  size (crosstab df) <> 0 ->
  values_sum (crosstab df) <> 0 ->
  f (values (crosstab df)) = Ok (stat, pval, d) ->
  PrimFloat.ltb (PrimFloat.div stat (of_int (values_sum (crosstab df))))
    PrimFloat.zero = false ->
  chi_square_on_haswiki f df
  = (Ok {| chi2 := stat; p := pval; dof := d;
           phi := PrimFloat.sqrt
                    (PrimFloat.div stat
                       (of_int (values_sum (crosstab df)))) |},
     [values (crosstab df)]).
Proof.
  intros Hsize Hsum Hf Hq. unfold chi_square_on_haswiki.
  apply Z.eqb_neq in Hsize as G1. apply Z.eqb_neq in Hsum as G2.
  rewrite G1, G2, Hf. cbn [orb].
  rewrite values_sum_crosstab in Hq |- *.
  assert (Hn : 0 < Z.of_nat (List.length df)).
  { rewrite size_crosstab_zero in Hsize.
    destruct df; [congruence | simpl; lia]. }
  apply Z.ltb_lt in Hn. rewrite Hn.
  unfold py_sqrt. rewrite Hq. reflexivity.
Qed.

Lemma phi_is_rounded_root_witness :
  chi_square_on_haswiki answers_demo twelve_rows
  = (Ok {| chi2 := statistic_demo;
           p := PrimFloat.div (of_int 171) (of_int 1000);
           dof := 1;
           phi := PrimFloat.sqrt
                    (PrimFloat.div statistic_demo
                       (of_int (values_sum (crosstab twelve_rows)))) |},
     [values (crosstab twelve_rows)]).
Proof.
  apply (phi_is_rounded_root answers_demo twelve_rows).
  - vm_compute. discriminate.
  - vm_compute. discriminate.
  - reflexivity.
  - vm_compute. reflexivity.
Defined.

End Tester64Facts.

(* ================================================================== *)
(** * The mention labeler: further properties *)
(* ================================================================== *)

Module LabelerMore.
Import PyStr PyStrFacts Labeler LabelerFacts.

(** ** More on the string operations *)

Lemma isspace_lower_char (c : ascii) : isspace (lower_char c) = isspace c.
Proof.
  destruct c as [[] [] [] [] [] [] [] []]; vm_compute; reflexivity.
Qed.

Lemma all_space_lower (s : string) : all_space (lower s) = all_space s.
Proof.
  induction s as [|c s IH]; simpl; [reflexivity|].
  now rewrite isspace_lower_char, IH.
Qed.

Lemma all_space_app (a b : string) :
  all_space (a ++ b) = all_space a && all_space b.
Proof.
  induction a as [|c a IH]; simpl; [reflexivity|].
  now rewrite IH, andb_assoc.
Qed.

Lemma response_empty_all_space (s : string) :
  response_empty s = all_space s.
Proof.
  destruct (all_space s) eqn:E.
  - now apply response_empty_true, strip_empty.
  - destruct (response_empty s) eqn:R; [|reflexivity].
    apply response_empty_true, strip_empty in R. congruence.
Qed.

Lemma app_assoc_s (a b c : string) : (a ++ b) ++ c = a ++ b ++ c.
Proof. induction a as [|x a IH]; simpl; [reflexivity | now rewrite IH]. Qed.

Lemma substring_trans (a b c : string) :
  substring a b -> substring b c -> substring a c.
Proof.
  intros (p1 & q1 & ->) (p2 & q2 & ->).
  exists (p2 ++ p1), (q1 ++ q2). now rewrite !app_assoc_s.
Qed.

(** ** What a label says about its row *)

Lemma Mentioned_label_row (r : raw_row) :
  Mentioned (label_row r)
  = if all_space (fillna (raw_Response r)) then 0%Z
    else if contains (lower (raw_Brand r)) (lower (fillna (raw_Response r)))
         then 1%Z else 0%Z.
Proof.
  unfold label_row, np_where_zero, mention_lambda. cbn [Mentioned].
  now rewrite response_empty_all_space.
Qed.

(** X1. The flag is 0 or 1, and it is 1 exactly for the rows whose response is
    not blank and contains the brand up to letter case; such a row is never
    marked as having an empty response, and its response cell is never
    missing in the result. *)
Theorem mentioned_iff (df : list raw_row) (i : nat) (r : raw_row) :
  nth_error df i = Some r ->
  exists r', nth_error (label_mentions df) i = Some r'
    /\ Response r' = fillna (raw_Response r)
    /\ (Mentioned r' = 0%Z \/ Mentioned r' = 1%Z)
    /\ (Mentioned r' = 1%Z
        <-> strip (Response r') <> ""
            /\ substring (lower (raw_Brand r)) (lower (Response r')))
    /\ (Mentioned r' = 1%Z -> ResponseEmpty r' = false).
Proof.
  intros Hi. exists (label_row r).
  split; [now apply label_mentions_nth|]. split; [reflexivity|].
  rewrite Mentioned_label_row. cbn [Response ResponseEmpty label_row].
  rewrite response_empty_all_space, strip_empty, <- contains_substring.
  destruct (all_space _), (contains _ _); intuition congruence.
Qed.

Lemma mentioned_iff_witness :
  let r := mkRaw "Dell" "Laptop" "" (Some "Yes, DELL laptops") in
  exists r', nth_error (label_mentions [r]) 0 = Some r'
    /\ Response r' = fillna (raw_Response r)
    /\ (Mentioned r' = 0%Z \/ Mentioned r' = 1%Z)
    /\ (Mentioned r' = 1%Z
        <-> strip (Response r') <> ""
            /\ substring (lower (raw_Brand r)) (lower (Response r')))
    /\ (Mentioned r' = 1%Z -> ResponseEmpty r' = false).
Proof.
  exact (mentioned_iff [mkRaw "Dell" "Laptop" "" (Some "Yes, DELL laptops")]
           0 _ eq_refl).
Defined.

(** X2. The label does not depend on letter case: two rows whose brands agree
    once lower-cased and whose responses agree once lower-cased get the same
    flag. *)
Theorem mention_case_insensitive
    (df : list raw_row) (i j : nat) (r1 r2 : raw_row) :
  nth_error df i = Some r1 ->
  nth_error df j = Some r2 ->
  lower (raw_Brand r1) = lower (raw_Brand r2) ->
  lower (fillna (raw_Response r1)) = lower (fillna (raw_Response r2)) ->
  exists r1' r2',
    nth_error (label_mentions df) i = Some r1'
    /\ nth_error (label_mentions df) j = Some r2'
    /\ Mentioned r1' = Mentioned r2'.
Proof.
  intros H1 H2 Hb Hr. exists (label_row r1), (label_row r2).
  split; [now apply label_mentions_nth|].
  split; [now apply label_mentions_nth|].
  rewrite !Mentioned_label_row, Hb, Hr.
  rewrite <- (all_space_lower (fillna (raw_Response r1))), Hr, all_space_lower.
  reflexivity.
Qed.

Lemma mention_case_insensitive_witness :
  exists r1' r2',
    nth_error (label_mentions
                 [mkRaw "HP" "Laptop" "" (Some "hp is solid");
                  mkRaw "hp" "Laptop" "" (Some "HP IS SOLID")]) 0 = Some r1'
    /\ nth_error (label_mentions
                    [mkRaw "HP" "Laptop" "" (Some "hp is solid");
                     mkRaw "hp" "Laptop" "" (Some "HP IS SOLID")]) 1
       = Some r2'
    /\ Mentioned r1' = Mentioned r2'.
Proof.
  exact (mention_case_insensitive
           [mkRaw "HP" "Laptop" "" (Some "hp is solid");
            mkRaw "hp" "Laptop" "" (Some "HP IS SOLID")] 0 1 _ _
           eq_refl eq_refl eq_refl eq_refl).
Defined.

(** X3. A brand name contained in another one is flagged wherever the longer
    one is: the test is a plain substring test, not a word match. *)
Theorem mention_shorter_brand
    (df : list raw_row) (i j : nat) (r1 r2 : raw_row) :
  nth_error df i = Some r1 ->
  nth_error df j = Some r2 ->
  raw_Response r1 = raw_Response r2 ->
  substring (lower (raw_Brand r1)) (lower (raw_Brand r2)) ->
  exists r1' r2',
    nth_error (label_mentions df) i = Some r1'
    /\ nth_error (label_mentions df) j = Some r2'
    /\ (Mentioned r2' = 1%Z -> Mentioned r1' = 1%Z).
Proof.
  intros H1 H2 Hr Hb. exists (label_row r1), (label_row r2).
  split; [now apply label_mentions_nth|].
  split; [now apply label_mentions_nth|].
  rewrite !Mentioned_label_row, Hr.
  destruct (all_space _); [discriminate|].
  destruct (contains (lower (raw_Brand r2)) _) eqn:C2; [|discriminate].
  intros _. apply contains_substring in C2.
  pose proof (substring_trans _ _ _ Hb C2) as C1.
  apply contains_substring in C1. now rewrite C1.
Qed.

Lemma mention_shorter_brand_witness :
  exists r1' r2',
    nth_error (label_mentions
                 [mkRaw "HP" "Laptop" "" (Some "I own an HP Inc. laptop");
                  mkRaw "HP Inc." "Laptop" ""
                    (Some "I own an HP Inc. laptop")]) 0 = Some r1'
    /\ nth_error (label_mentions
                    [mkRaw "HP" "Laptop" "" (Some "I own an HP Inc. laptop");
                     mkRaw "HP Inc." "Laptop" ""
                       (Some "I own an HP Inc. laptop")]) 1 = Some r2'
    /\ (Mentioned r2' = 1%Z -> Mentioned r1' = 1%Z).
Proof.
  apply (mention_shorter_brand
           [mkRaw "HP" "Laptop" "" (Some "I own an HP Inc. laptop");
            mkRaw "HP Inc." "Laptop" "" (Some "I own an HP Inc. laptop")]
           0 1 _ _ eq_refl eq_refl eq_refl).
  exists "", " inc.". reflexivity.
Defined.

Lemma all_space_substring (a b : string) :
  substring a b -> all_space b = true -> all_space a = true.
Proof.
  intros (pre & post & ->). rewrite !all_space_app, !andb_true_iff. tauto.
Qed.

(** X4. A response that contains another one, once both are lower-cased,
    keeps its mentions: if the first is flagged for a brand, so is the
    second for the same brand, letter case set aside. *)
Theorem mention_longer_response
    (df : list raw_row) (i j : nat) (r1 r2 : raw_row) :
  nth_error df i = Some r1 ->
  nth_error df j = Some r2 ->
  lower (raw_Brand r1) = lower (raw_Brand r2) ->
  substring (lower (fillna (raw_Response r1)))
    (lower (fillna (raw_Response r2))) ->
  exists r1' r2',
    nth_error (label_mentions df) i = Some r1'
    /\ nth_error (label_mentions df) j = Some r2'
    /\ (Mentioned r1' = 1%Z -> Mentioned r2' = 1%Z).
Proof.
  intros H1 H2 Hb Hr. exists (label_row r1), (label_row r2).
  split; [now apply label_mentions_nth|].
  split; [now apply label_mentions_nth|].
  rewrite !Mentioned_label_row, Hb.
  destruct (all_space (fillna (raw_Response r1))) eqn:A1; [discriminate|].
  destruct (contains _ (lower (fillna (raw_Response r1)))) eqn:C1;
    [|discriminate].
  intros _.
  assert (A2 : all_space (fillna (raw_Response r2)) = false).
  { destruct (all_space (fillna (raw_Response r2))) eqn:A2; [|reflexivity].
    rewrite <- all_space_lower in A2.
    apply (all_space_substring _ _ Hr) in A2.
    rewrite all_space_lower in A2. congruence. }
  rewrite A2. apply contains_substring in C1.
  pose proof (substring_trans _ _ _ C1 Hr) as S.
  apply contains_substring in S. now rewrite S.
Qed.

Lemma mention_longer_response_witness :
  exists r1' r2',
    nth_error (label_mentions
                 [mkRaw "Dell" "Laptop" "" (Some "DELL");
                  mkRaw "dell" "Laptop" "" (Some "Yes, Dell is fine")]) 0
    = Some r1'
    /\ nth_error (label_mentions
                    [mkRaw "Dell" "Laptop" "" (Some "DELL");
                     mkRaw "dell" "Laptop" "" (Some "Yes, Dell is fine")]) 1
       = Some r2'
    /\ (Mentioned r1' = 1%Z -> Mentioned r2' = 1%Z).
Proof.
  apply (mention_longer_response
           [mkRaw "Dell" "Laptop" "" (Some "DELL");
            mkRaw "dell" "Laptop" "" (Some "Yes, Dell is fine")]
           0 1 _ _ eq_refl eq_refl eq_refl).
  exists "yes, ", " is fine". reflexivity.
Defined.

End LabelerMore.

(* ================================================================== *)
(** * Prompt builder and response seeder: properties *)
(* ================================================================== *)

Module PrepFacts.
Import PyStr PyStrFacts Labeler LabelerFacts LabelerMore Prep.
Local Open Scope list_scope.

Lemma set_response_length (i : nat) (text : string) (df : list raw_row) :
  List.length (set_response i text df) = List.length df.
Proof.
  revert i; induction df as [|r df IH]; intros [|i]; simpl; auto.
Qed.

Lemma set_response_nth (i j : nat) (text : string) (df : list raw_row) :
  nth_error (set_response i text df) j
  = if (j =? i)%nat then option_map (with_response text) (nth_error df j)
    else nth_error df j.
Proof.
  revert i j; induction df as [|r df IH]; intros [|i] [|j]; simpl; auto.
  - destruct (j =? i)%nat; reflexivity.
Qed.

Lemma seed_step_length (df : list raw_row) (it : nat * string) :
  List.length (seed_step df it) = List.length df.
Proof.
  destruct it as [i text]. unfold seed_step.
  destruct (i <? List.length df)%nat; [apply set_response_length | reflexivity].
Qed.

Lemma seed_loop_length (its : list (nat * string)) (df : list raw_row) :
  List.length (fold_left seed_step its df) = List.length df.
Proof.
  revert df; induction its as [|it its IH]; intros df; simpl; [reflexivity|].
  now rewrite IH, seed_step_length.
Qed.

(** The loop over [combine (seq k n) texts] rewrites the rows [k], [k+1],
    ... that exist, each with its own text, and no other row. *)
Lemma seed_loop_nth (texts : list string) (k : nat) (df : list raw_row)
    (i : nat) :
  nth_error
    (fold_left seed_step (combine (seq k (List.length texts)) texts) df) i
  = if ((k <=? i) && (i <? k + List.length texts))%nat
    then option_map (with_response (nth (i - k) texts ""%string))
           (nth_error df i)
    else nth_error df i.
Proof.
  revert k df; induction texts as [|t texts IH]; intros k df.
  - simpl. rewrite Nat.add_0_r.
    destruct (k <=? i)%nat eqn:E1, (i <? k)%nat eqn:E2; try reflexivity.
    apply Nat.leb_le in E1. apply Nat.ltb_lt in E2. lia.
  - cbn [List.length seq combine fold_left]. rewrite IH.
    assert (Hstep : nth_error (seed_step df (k, t)) i
                    = if (i =? k)%nat
                      then option_map (with_response t) (nth_error df i)
                      else nth_error df i).
    { unfold seed_step. destruct (k <? List.length df)%nat eqn:E.
      - apply set_response_nth.
      - destruct (i =? k)%nat eqn:E1; [|reflexivity].
        apply Nat.eqb_eq in E1. subst. apply Nat.ltb_ge in E.
        apply nth_error_None in E. now rewrite E. }
    rewrite Hstep.
    destruct (i =? k)%nat eqn:Eik.
    + apply Nat.eqb_eq in Eik. subst i.
      replace ((S k <=? k) && (k <? S k + List.length texts))%nat with false
        by (symmetry; apply andb_false_iff; left; apply Nat.leb_gt; lia).
      replace ((k <=? k) && (k <? k + S (List.length texts)))%nat with true
        by (symmetry; apply andb_true_iff; split;
            [apply Nat.leb_le | apply Nat.ltb_lt]; lia).
      now rewrite Nat.sub_diag.
    + apply Nat.eqb_neq in Eik.
      destruct (S k <=? i)%nat eqn:E1.
      * apply Nat.leb_le in E1.
        replace (k <=? i)%nat with true by (symmetry; apply Nat.leb_le; lia).
        replace (i <? k + S (List.length texts))%nat
          with (i <? S k + List.length texts)%nat
          by (f_equal; lia).
        cbn [andb].
        destruct (i <? S k + List.length texts)%nat; [|reflexivity].
        replace (i - k)%nat with (S (i - S k)) by lia. reflexivity.
      * apply Nat.leb_gt in E1.
        replace (k <=? i)%nat with false by (symmetry; apply Nat.leb_gt; lia).
        reflexivity.
Qed.

(** X5. The seeder keeps the number and the order of the rows and their brand,
    category and prompt.  Row [i] receives the [i]-th seed text when there is
    one, and the empty string otherwise; no response is left missing; a frame
    shorter than the seed list just takes the texts it has room for. *)
Theorem seeded_rows (df : list prompt_row) (i : nat) (r : prompt_row) :
  nth_error df i = Some r ->
  List.length (seed_sample_responses df) = List.length df
  /\ nth_error (seed_sample_responses df) i
     = Some (mkRaw (p_Brand r) (p_Category r) (p_Prompt r)
               (Some (nth i seed ""%string))).
Proof.
  intros Hi. unfold seed_sample_responses, enumerate. split.
  - now rewrite seed_loop_length, length_map.
  - rewrite seed_loop_nth, nth_error_map, Hi. cbn [option_map Nat.leb andb].
    rewrite Nat.sub_0_r. cbn [Nat.add].
    destruct (i <? List.length seed)%nat eqn:E; [reflexivity|].
    apply Nat.ltb_ge in E. now rewrite (nth_overflow seed ""%string E).
Qed.

Lemma seeded_rows_witness :
  List.length (seed_sample_responses
                 (build_prompts [mkCsv "Dell" "Laptop"; mkCsv "Asus" "Laptop"]))
  = 2%nat
  /\ nth_error (seed_sample_responses
                  (build_prompts [mkCsv "Dell" "Laptop"; mkCsv "Asus" "Laptop"]))
       1
     = Some (mkRaw "Asus" "Laptop" "Is Asus a good Laptop brand?"
               (Some "Yes, Dell laptops are known for reliability.")).
Proof.
  exact (seeded_rows
           (build_prompts [mkCsv "Dell" "Laptop"; mkCsv "Asus" "Laptop"])
           1 _ eq_refl).
Defined.

(** ** Seeding followed by labelling *)

Lemma prepare_nth (df : list csv_row) (i : nat) (r : csv_row) :
  nth_error df i = Some r ->
  nth_error (prepare df) i
  = Some (label_row (mkRaw (csv_Brand r) (csv_Category r)
                       (prompt_text (csv_Brand r) (csv_Category r))
                       (Some (nth i seed ""%string)))).
Proof.
  intros Hi. unfold prepare.
  assert (Hp : nth_error (build_prompts df) i
               = Some (mkPrompt (csv_Brand r) (csv_Category r)
                         (prompt_text (csv_Brand r) (csv_Category r)))).
  { unfold build_prompts. now rewrite nth_error_map, Hi. }
  destruct (seeded_rows _ _ _ Hp) as [_ Hs].
  now rewrite (label_mentions_nth _ _ _ Hs).
Qed.

Lemma prepare_length (df : list csv_row) :
  List.length (prepare df) = List.length df.
Proof.
  unfold prepare, label_mentions, seed_sample_responses, build_prompts.
  now rewrite length_map, seed_loop_length, !length_map.
Qed.

Lemma Mentioned_range (r : raw_row) :
  (0 <= Mentioned (label_row r) <= 1)%Z.
Proof.
  rewrite Mentioned_label_row.
  destruct (all_space _); [lia|]. destruct (contains _ _); lia.
Qed.

Lemma total_mentions_app (l1 l2 : list row) :
  total_mentions (l1 ++ l2) = (total_mentions l1 + total_mentions l2)%Z.
Proof.
  unfold total_mentions. induction l1 as [|x l1 IH]; simpl; [reflexivity|].
  rewrite IH. lia.
Qed.

Lemma total_mentions_bound (l : list row) :
  (forall x, In x l -> (0 <= Mentioned x <= 1)%Z) ->
  (0 <= total_mentions l <= Z.of_nat (List.length l))%Z.
Proof.
  unfold total_mentions. induction l as [|x l IH]; intros H.
  - simpl. lia.
  - cbn [map fold_right List.length].
    assert (0 <= Mentioned x <= 1)%Z by (apply H; now left).
    assert (0 <= fold_right Z.add 0%Z (map Mentioned l)
            <= Z.of_nat (List.length l))%Z
      by (apply IH; intros y Hy; apply H; now right).
    lia.
Qed.

Lemma total_mentions_zero (l : list row) :
  (forall x, In x l -> Mentioned x = 0%Z) -> total_mentions l = 0%Z.
Proof.
  unfold total_mentions. induction l as [|x l IH]; intros H; [reflexivity|].
  cbn [map fold_right]. rewrite (H x) by now left.
  rewrite IH; [reflexivity|]. intros y Hy. apply H. now right.
Qed.

Lemma prepare_In (df : list csv_row) (x : row) :
  In x (prepare df) -> (0 <= Mentioned x <= 1)%Z.
Proof.
  unfold prepare, label_mentions. intros H. apply in_map_iff in H.
  destruct H as (r & <- & _). apply Mentioned_range.
Qed.

(** X6. After seeding and labelling a frame that has a row, only the first three
    rows can be flagged: every row from the fourth on has an empty response
    and the flag 0, so the frame holds three mentions at most, whatever the
    brands are. *)
Theorem seeded_mentions_bound (df : list csv_row) :
  df <> [] ->
  (forall i x, (3 <= i)%nat -> nth_error (prepare df) i = Some x ->
               Response x = ""%string /\ ResponseEmpty x = true
               /\ Mentioned x = 0%Z)
  /\ (0 <= total_mentions (prepare df) <= 3)%Z.
Proof.
  intros _.
  assert (Hlate : forall i x, (3 <= i)%nat ->
             nth_error (prepare df) i = Some x ->
             Response x = ""%string /\ ResponseEmpty x = true
             /\ Mentioned x = 0%Z).
  { intros i x Hi Hx.
    destruct (nth_error df i) as [r|] eqn:Er.
    - rewrite (prepare_nth _ _ _ Er) in Hx.
      rewrite (nth_overflow seed ""%string) in Hx by (simpl; lia).
      injection Hx as <-. repeat split; reflexivity.
    - apply nth_error_None in Er. rewrite <- prepare_length in Er.
      apply nth_error_None in Er. congruence. }
  split; [exact Hlate|].
  rewrite <- (firstn_skipn 3 (prepare df)), total_mentions_app.
  assert (H1 : (0 <= total_mentions (firstn 3 (prepare df))
                <= Z.of_nat (List.length (firstn 3 (prepare df))))%Z).
  { apply total_mentions_bound. intros x Hx. apply (prepare_In df).
    rewrite <- (firstn_skipn 3 (prepare df)). apply in_or_app. now left. }
  assert (H2 : total_mentions (skipn 3 (prepare df)) = 0%Z).
  { apply total_mentions_zero. intros x Hx.
    apply In_nth_error in Hx. destruct Hx as [j Hj].
    rewrite nth_error_skipn in Hj.
    apply (Hlate (3 + j)%nat x); [lia | exact Hj]. }
  pose proof (firstn_le_length 3 (prepare df)). lia.
Qed.

Lemma seeded_mentions_bound_witness :
  (forall i x, (3 <= i)%nat ->
     nth_error (prepare [mkCsv "Apple" "Laptop"; mkCsv "Dell" "Laptop";
                         mkCsv "HP" "Laptop"; mkCsv "Lenovo" "Laptop"]) i
     = Some x ->
     Response x = ""%string /\ ResponseEmpty x = true /\ Mentioned x = 0%Z)
  /\ (0 <= total_mentions
              (prepare [mkCsv "Apple" "Laptop"; mkCsv "Dell" "Laptop";
                        mkCsv "HP" "Laptop"; mkCsv "Lenovo" "Laptop"])
       <= 3)%Z.
Proof.
  apply (seeded_mentions_bound
           [mkCsv "Apple" "Laptop"; mkCsv "Dell" "Laptop";
            mkCsv "HP" "Laptop"; mkCsv "Lenovo" "Laptop"]).
  discriminate.
Defined.

(** With the three brands of the seed texts in front, the first three rows
    are flagged and no other. *)
Example prepare_demo :
  map Mentioned
      (prepare [mkCsv "Apple" "Laptop"; mkCsv "Dell" "Laptop";
                mkCsv "HP" "Laptop"; mkCsv "Lenovo" "Laptop"])
  = [1%Z; 1%Z; 1%Z; 0%Z].
Proof. reflexivity. Qed.

End PrepFacts.

(* ================================================================== *)
(** * The page resolver: further properties *)
(* ================================================================== *)

Module ResolverMore.
Import PyStr PyStrFacts Resolver ResolverSpec ResolverFacts Observe.
Local Open Scope list_scope.

Lemma page_successes_app (l1 l2 : list event) :
  page_successes (l1 ++ l2) = (page_successes l1 + page_successes l2)%nat.
Proof.
  induction l1 as [|[s t [ttl|e]|q res] l1 IH]; simpl; rewrite ?IH;
    reflexivity.
Qed.

Lemma searches_app (l1 l2 : list event) :
  searches (l1 ++ l2) = searches l1 ++ searches l2.
Proof.
  induction l1 as [|[s t res|q res] l1 IH]; simpl; rewrite ?IH; reflexivity.
Qed.

Lemma WIKI_ALIASES_short (brand : string) :
  (List.length (dict_get WIKI_ALIASES brand []) <= 2)%nat.
Proof.
  unfold dict_get, WIKI_ALIASES. cbn [dict_lookup].
  repeat match goal with
         | |- context [if String.eqb ?k brand then _ else _] =>
             destruct (String.eqb k brand)
         end; simpl; lia.
Qed.

(** No brand has more than three candidate titles, and the brand itself is
    always one of them. *)
Lemma titles_to_try_short (brand : string) :
  (1 <= List.length (titles_to_try brand) <= 3)%nat
  /\ In brand (titles_to_try brand).
Proof.
  split.
  - pose proof (titles_to_try_eq brand) as T. cbv zeta in T. rewrite T.
    pose proof (WIKI_ALIASES_short brand) as H.
    rewrite length_app.
    destruct (mem brand (dict_get WIKI_ALIASES brand [])) eqn:E; simpl.
    + apply mem_In in E.
      destruct (dict_get WIKI_ALIASES brand []); [destruct E | simpl in *; lia].
    + lia.
  - unfold titles_to_try. apply dict_fromkeys_In, in_or_app.
    right; now left.
Qed.

Section WithService.

Variable World : Type.
Variable wiki_page : string -> World -> outcome string * World.
Variable wiki_search : string -> World -> outcome (list string) * World.

Local Abbreviation try_fetch_each := (Resolver.try_fetch_each World wiki_page).
Local Abbreviation try_titles := (Resolver.try_titles World wiki_page).
Local Abbreviation search_fallback :=
  (Resolver.search_fallback World wiki_page wiki_search).
Local Abbreviation after_titles :=
  (Resolver.after_titles World wiki_page wiki_search).
Local Abbreviation fetch_run := (Resolver.fetch_run World wiki_page).
Local Abbreviation search_run :=
  (ResolverSpec.search_run World wiki_page wiki_search).
Local Abbreviation has_wikipedia_page :=
  (Resolver.has_wikipedia_page World wiki_page wiki_search).

Lemma fetch_run_observed (site : call_site) (cands : list string)
    (w w' : World) (evs : list event) (r : option string) :
  fetch_run site cands w evs r w' ->
  page_successes evs = successes_of r /\ searches evs = [].
Proof.
  intros R; induction R; simpl; auto.
Qed.

(** The candidate loop on its own. *)
Lemma try_titles_observed (brand : string) (titles : list string)
    (w : World) :
  exists r w' evs,
    try_titles brand titles w = (Ret (option_map found r), w', evs)
    /\ (List.length evs <= 4 * List.length titles)%nat
    /\ page_successes evs = successes_of r
    /\ searches evs = []
    /\ (r = None -> direct_titles evs = titles).
Proof.
  revert w; induction titles as [|t rest IH]; intros w.
  - exists None, w, []. repeat split; simpl; auto.
  - rewrite (try_titles_cons World wiki_page).
    assert (Hcont : forall e evs0 w2,
               (List.length evs0 <= 3)%nat ->
               page_successes evs0 = 0%nat ->
               searches evs0 = [] ->
               direct_titles evs0 = [] ->
               exists r w' evs,
                 log_before (EvPage Direct t (Raise e) :: evs0)
                   (try_titles brand rest w2)
                 = (Ret (option_map found r), w', evs)
                 /\ (List.length evs <= 4 * List.length (t :: rest))%nat
                 /\ page_successes evs = successes_of r
                 /\ searches evs = []
                 /\ (r = None -> direct_titles evs = t :: rest)).
    { intros e evs0 w2 H1 H2 H3 H4.
      destruct (IH w2) as (r & w' & evs & E & L & P & S & D).
      rewrite E. exists r, w', ((EvPage Direct t (Raise e) :: evs0) ++ evs).
      split; [reflexivity|].
      rewrite length_app, page_successes_app, searches_app, direct_titles_app.
      cbn [List.length page_successes searches direct_titles].
      rewrite H2, H3, H4, S. repeat split.
      - lia.
      - exact P.
      - intros Hr. cbn. now rewrite (D Hr). }
    destruct (wiki_page t w) as [[ttl|e] w1].
    + exists (Some ttl), w1, [EvPage Direct t (Ret ttl)].
      repeat split; simpl; try lia. discriminate.
    + destruct e as [options| |];
        try (apply (Hcont _ [] w1); simpl; auto; lia).
      cbv zeta.
      destruct (try_fetch_each_spec World wiki_page Disambiguated
                  (firstn 3 (rank_options brand options)) w1)
        as (r & w2 & evs & E & R).
      rewrite E.
      pose proof (fetch_run_length _ _ _ _ _ _ _ _ R) as L.
      rewrite length_firstn in L.
      pose proof (fetch_run_observed _ _ _ _ _ _ R) as [P S].
      assert (D : direct_titles evs = []).
      { apply fetch_run_no_direct in R; [exact R | discriminate]. }
      destruct r as [ttl|]; cbn [option_map].
      * exists (Some ttl), w2,
          (EvPage Direct t (Raise (DisambiguationError options)) :: evs).
        cbn [List.length page_successes searches]. rewrite P, S.
        repeat split; simpl; try lia. discriminate.
      * apply Hcont; auto. lia.
Qed.

(** The whole resolver, seen through its log. *)
Lemma has_wikipedia_page_observed (brand : string) (w : World) :
  exists r w' pre post,
    has_wikipedia_page brand w = (Ret (resolution_of r), w', pre ++ post)
    /\ (List.length pre <= 4 * List.length (titles_to_try brand))%nat
    /\ (List.length post <= 6)%nat
    /\ page_successes (pre ++ post) = successes_of r
    /\ searches pre = []
    /\ (post = []
        \/ direct_titles pre = titles_to_try brand
           /\ page_successes pre = 0%nat
           /\ searches post = [brand]
           /\ exists w1, search_run brand w1 post r w')
    /\ (r = None -> post <> []).
Proof.
  rewrite (has_wikipedia_page_run World wiki_page wiki_search).
  destruct (try_titles_observed brand (titles_to_try brand) w)
    as (r & w1 & evs1 & E & L & P & S & D).
  rewrite E. destruct r as [ttl|]; cbn [option_map].
  - exists (Some ttl), w1, evs1, []. rewrite app_nil_r.
    split; [cbn; now rewrite app_nil_r|].
    repeat split; simpl; auto; try lia. discriminate.
  - rewrite (after_titles_none World wiki_page wiki_search).
    pose proof (search_fallback_spec World wiki_page wiki_search brand w1)
      as F.
    destruct (wiki_search brand w1) as [[hits|e] w2] eqn:Es.
    + destruct F as (r & w3 & evs & R & ->).
      pose proof (fetch_run_length _ _ _ _ _ _ _ _ R) as L2.
      rewrite length_firstn in L2.
      pose proof (fetch_run_observed _ _ _ _ _ _ R) as [P2 S2].
      cbn [successes_of] in P.
      exists r, w3, evs1, (EvSearch brand (Ret hits) :: evs).
      split; [destruct r; reflexivity|].
      split; [exact L|]. split; [simpl; lia|].
      split; [rewrite page_successes_app, P; exact P2|].
      split; [exact S|]. split; [|discriminate].
      right. split; [now apply D|]. split; [exact P|].
      split; [cbn [searches]; now rewrite S2|].
      exists w1. eapply search_hits; eauto.
    + cbn [successes_of] in P.
      rewrite F. exists None, w2, evs1, [EvSearch brand (Raise e)].
      split; [reflexivity|].
      split; [exact L|]. split; [simpl; lia|].
      split; [rewrite page_successes_app, P; reflexivity|].
      split; [exact S|]. split; [|discriminate].
      right. split; [now apply D|]. split; [exact P|].
      split; [reflexivity|].
      exists w1. now apply search_failed.
Qed.

(** X7. One call of the resolver sends at most four requests per candidate title
    (the title and three disambiguation options) and six more for the
    fallback (the search and five hits): eighteen at most, since no brand has
    more than three candidates. *)
Theorem request_budget (brand : string) (w : World) :
  (List.length (snd (has_wikipedia_page brand w))
   <= 4 * List.length (titles_to_try brand) + 6)%nat
  /\ (List.length (snd (has_wikipedia_page brand w)) <= 18)%nat.
Proof.
  destruct (has_wikipedia_page_observed brand w)
    as (r & w' & pre & post & E & L1 & L2 & _).
  rewrite E. cbn [snd]. rewrite length_app.
  pose proof (titles_to_try_short brand) as [H _]. lia.
Qed.

(** X8. The resolver stops at the first page it obtains: the flag it returns is
    the number of page requests that succeeded, so a run never obtains two
    pages, and it returns 0 only when every page request failed. *)
Theorem flag_counts_pages (brand : string) (w : World) :
  exists flag title w' evs,
    has_wikipedia_page brand w = (Ret (flag, title), w', evs)
    /\ Z.of_nat (page_successes evs) = flag.
Proof.
  destruct (has_wikipedia_page_observed brand w)
    as (r & w' & pre & post & E & _ & _ & P & _).
  destruct r as [ttl|].
  - exists 1%Z, (Some ttl), w', (pre ++ post). split; [exact E|].
    now rewrite P.
  - exists 0%Z, None, w', (pre ++ post). split; [exact E|]. now rewrite P.
Qed.

(** X9. The search is a last resort: a run searches at most once, for the brand
    name, and only after every candidate title has been requested without
    obtaining a page.  What follows the candidates is then exactly the
    fallback: the search and, when it succeeds, requests for its first five
    hits in their order, up to the first page, and nothing else; the value
    returned is the outcome of that fallback.  0 is returned only by runs
    that did search. *)
Theorem search_is_last_resort (brand : string) (w : World) :
  exists flag title w' pre post,
    has_wikipedia_page brand w = (Ret (flag, title), w', pre ++ post)
    /\ searches pre = []
    /\ (post = []
        \/ direct_titles pre = titles_to_try brand
           /\ page_successes pre = 0%nat
           /\ searches post = [brand]
           /\ exists w1 r,
                search_run brand w1 post r w'
                /\ (flag, title) = resolution_of r)
    /\ (flag = 0%Z -> post <> []).
Proof.
  destruct (has_wikipedia_page_observed brand w)
    as (r & w' & pre & post & E & _ & _ & _ & S & Hpost & Hnone).
  exists (fst (resolution_of r)), (snd (resolution_of r)), w', pre, post.
  rewrite <- surjective_pairing. split; [exact E|]. split; [exact S|].
  split.
  - destruct Hpost as [->|(D & P & S2 & w1 & R)]; [now left|].
    right. split; [exact D|]. split; [exact P|]. split; [exact S2|].
    exists w1, r. split; [exact R | reflexivity].
  - destruct r; [discriminate | intros _; now apply Hnone].
Qed.

End WithService.

(** X10. Options with the same sort key are tried in the order in which the
    service listed them: the ranking is a stable sort. *)
Theorem rank_options_stable (brand : string) (options : list string)
    (k : bool * nat) :
  filter (has_key (sort_key brand) k) (rank_options brand options)
  = filter (has_key (sort_key brand) k) options.
Proof. apply sorted_by_stable. Qed.

Example rank_options_ties :
  rank_options "Dell" ["Dell B"; "Adele"; "Dell A"; "Michael Dell"]
  = ["Dell B"; "Dell A"; "Michael Dell"; "Adele"].
Proof. reflexivity. Qed.

End ResolverMore.

(* ================================================================== *)
(** * The association tester: further properties *)
(* ================================================================== *)

Module TesterMore.
Import Tester TesterAux TesterFacts.
Local Open Scope list_scope.
Local Open Scope Z_scope.

(** ** The cross-tabulation *)

(** X11. The axes of the table list, in strictly ascending order, exactly the
    values that occur in the two columns; the counts form a rectangle with
    one list per row label and one count per column label, and the count at
    a position is the number of rows of the frame that carry the two labels
    of that position. *)
Theorem crosstab_shape (df : list sample) :
  let tab := crosstab df in
  StronglySorted Z.lt (index tab)
  /\ StronglySorted Z.lt (columns tab)
  /\ (forall r, In r (index tab) <-> exists s, In s df /\ HasWiki s = r)
  /\ (forall c, In c (columns tab) <-> exists s, In s df /\ Mentioned s = c)
  /\ List.length (values tab) = List.length (index tab)
  /\ Forall (fun row => List.length row = List.length (columns tab))
       (values tab)
  /\ (forall i j,
         (i < List.length (index tab))%nat ->
         (j < List.length (columns tab))%nat ->
         nth j (nth i (values tab) []) 0
         = cell df (nth i (index tab) 0) (nth j (columns tab) 0)).
Proof.
  cbv zeta. unfold crosstab. cbn [index columns values].
  split; [apply labels_sorted|]. split; [apply labels_sorted|].
  split; [|split; [|split; [|split]]].
  - intros r. rewrite labels_In, in_map_iff.
    split; intros (s & H1 & H2); exists s; auto.
  - intros c. rewrite labels_In, in_map_iff.
    split; intros (s & H1 & H2); exists s; auto.
  - apply length_map.
  - apply Forall_forall. intros row Hrow. apply in_map_iff in Hrow.
    destruct Hrow as (r & <- & _). apply length_map.
  - intros i j Hi Hj.
    set (rows := labels (map HasWiki df)) in *.
    set (cols := labels (map Mentioned df)) in *.
    rewrite (nth_indep _ [] (map (fun c => cell df 0 c) cols))
      by (now rewrite length_map).
    rewrite (map_nth (fun r => map (fun c => cell df r c) cols) rows 0 i).
    rewrite (nth_indep _ 0 (cell df (nth i rows 0) 0))
      by (now rewrite length_map).
    apply (map_nth (fun c => cell df (nth i rows 0) c)).
Qed.

(** X12. Every row of the frame is counted in exactly one cell: the counts add up
    to the number of rows, and no row or column of the table is empty. *)
Theorem crosstab_total (df : list sample) :
  values_sum (crosstab df) = Z.of_nat (List.length df)
  /\ Forall (Forall (Z.le 0)) (values (crosstab df))
  /\ Forall (Z.lt 0) (row_sums (values (crosstab df)))
  /\ Forall (Z.lt 0) (col_sums (values (crosstab df))).
Proof.
  split; [apply values_sum_crosstab|]. split; [apply cells_nonneg|].
  split; [apply row_sums_pos | apply col_sums_pos].
Qed.

Lemma sorted_bounded_short (l : list Z) :
  StronglySorted Z.lt l -> (forall x, In x l -> x = 0 \/ x = 1) ->
  (List.length l <= 2)%nat.
Proof.
  intros Hs Hb.
  destruct l as [|a [|b [|c l]]]; simpl; try lia. exfalso.
  inversion Hs as [|? ? Hs1 Ha]; subst.
  inversion Hs1 as [|? ? Hs2 Hb1]; subst.
  inversion Ha as [|? ? Hab Ha']; subst. inversion Ha' as [|? ? Hac _]; subst.
  inversion Hb1 as [|? ? Hbc _]; subst.
  pose proof (Hb a (or_introl eq_refl)).
  pose proof (Hb b (or_intror (or_introl eq_refl))).
  pose proof (Hb c (or_intror (or_intror (or_introl eq_refl)))).
  lia.
Qed.

Lemma binary_axes (df : list sample) :
  (forall s, In s df ->
     (HasWiki s = 0 \/ HasWiki s = 1) /\ (Mentioned s = 0 \/ Mentioned s = 1)) ->
  (List.length (index (crosstab df)) <= 2)%nat
  /\ (List.length (columns (crosstab df)) <= 2)%nat.
Proof.
  intros H. split.
  - apply sorted_bounded_short; [apply labels_sorted|].
    intros x Hx. apply labels_In, in_map_iff in Hx.
    destruct Hx as (s & <- & Hs). now apply H.
  - apply sorted_bounded_short; [apply labels_sorted|].
    intros x Hx. apply labels_In, in_map_iff in Hx.
    destruct Hx as (s & <- & Hs). now apply H.
Qed.

(** X13. On a frame whose two columns hold only 0 and 1, which is what the
    labeler and the resolver produce, the table is 2 x 2 at most. *)
Theorem binary_frame_table (df : list sample) :
  (forall s, In s df ->
     (HasWiki s = 0 \/ HasWiki s = 1) /\ (Mentioned s = 0 \/ Mentioned s = 1)) ->
  (List.length (index (crosstab df)) <= 2)%nat
  /\ (List.length (columns (crosstab df)) <= 2)%nat
  /\ size (crosstab df) <= 4.
Proof.
  intros H. destruct (binary_axes df H) as [H1 H2].
  split; [exact H1|]. split; [exact H2|]. unfold size. nia.
Qed.

Lemma binary_frame_table_witness :
  (List.length (index (crosstab demo_frame)) <= 2)%nat
  /\ (List.length (columns (crosstab demo_frame)) <= 2)%nat
  /\ size (crosstab demo_frame) <= 4.
Proof.
  apply (binary_frame_table demo_frame).
  intros s [<-|[<-|[<-|[]]]]; cbn; auto.
Defined.

(** ** The order of the rows does not matter *)

Lemma sorted_same_elements (l1 l2 : list Z) :
  StronglySorted Z.lt l1 -> StronglySorted Z.lt l2 ->
  (forall x, In x l1 <-> In x l2) -> l1 = l2.
Proof.
  intros H1; revert l2; induction H1 as [|a l1 Hs1 IH Ha]; intros l2 H2 E.
  - destruct l2 as [|b l2]; [reflexivity|].
    destruct (proj2 (E b) (or_introl eq_refl)).
  - destruct H2 as [|b l2 Hs2 Hb].
    + destruct (proj1 (E a) (or_introl eq_refl)).
    + rewrite Forall_forall in Ha, Hb.
      assert (a = b).
      { destruct (proj1 (E a) (or_introl eq_refl)) as [->|Hin];
          [reflexivity|].
        destruct (proj2 (E b) (or_introl eq_refl)) as [->|Hin'];
          [reflexivity|].
        specialize (Ha _ Hin'). specialize (Hb _ Hin). lia. }
      subst b. f_equal. apply IH; [exact Hs2|].
      intros x. split; intros Hx.
      * destruct (proj1 (E x) (or_intror Hx)) as [->|Hin]; [|exact Hin].
        specialize (Ha _ Hx). lia.
      * destruct (proj2 (E x) (or_intror Hx)) as [->|Hin]; [|exact Hin].
        specialize (Hb _ Hx). lia.
Qed.

Lemma labels_perm (xs ys : list Z) :
  Permutation xs ys -> labels xs = labels ys.
Proof.
  intros P. apply sorted_same_elements; try apply labels_sorted.
  intros x. rewrite !labels_In. split; apply Permutation_in; [|symmetry]; auto.
Qed.

Lemma count_if_perm (P : sample -> bool) (df df' : list sample) :
  Permutation df df' -> count_if P df = count_if P df'.
Proof.
  intros H. unfold count_if. f_equal.
  induction H as [|x l l' H IH|x y l|l l' l'' H1 IH1 H2 IH2]; simpl.
  - reflexivity.
  - destruct (P x); simpl; now rewrite IH.
  - destruct (P x), (P y); reflexivity.
  - now rewrite IH1.
Qed.

(** X14. Shuffling the rows of the frame changes neither the table nor what the
    tester reports. *)
Theorem row_order_irrelevant
    (f : list (list Z) -> outcome (R * R * Z)) (df df' : list sample) :
  Permutation df df' ->
  crosstab df = crosstab df'
  /\ chi_square_on_haswiki f df = chi_square_on_haswiki f df'.
Proof.
  intros P.
  assert (E : crosstab df = crosstab df').
  { unfold crosstab.
    rewrite (labels_perm _ _ (Permutation_map HasWiki P)).
    rewrite (labels_perm _ _ (Permutation_map Mentioned P)).
    f_equal. apply map_ext. intros r. apply map_ext. intros c.
    unfold cell. now apply count_if_perm. }
  split; [exact E|]. unfold chi_square_on_haswiki.
  now rewrite E, (Permutation_length P).
Qed.

Lemma row_order_irrelevant_witness :
  crosstab demo_frame = crosstab (rev demo_frame)
  /\ chi_square_on_haswiki (pearson_contingency constant_sf) demo_frame
     = chi_square_on_haswiki (pearson_contingency constant_sf)
         (rev demo_frame).
Proof.
  apply (row_order_irrelevant (pearson_contingency constant_sf)).
  apply Permutation_rev.
Defined.

(** ** When the statistic is computed, and what can go wrong *)

Section WithScipy.

Variable chi2_contingency : list (list Z) -> outcome (R * R * Z).

Local Abbreviation chi_square_on_haswiki :=
  (Tester.chi_square_on_haswiki chi2_contingency).

(** X15. [chi2_contingency] is skipped for the empty frame and for no other: on
    every frame with a row it is called once, with the counts of the table.
    The second half of the guard of line 200 never decides anything: a table
    that has a cell has a positive total. *)
Theorem skipped_iff_empty (df : list sample) :
  (snd (chi_square_on_haswiki df) = [] <-> df = [])
  /\ (df <> [] -> snd (chi_square_on_haswiki df) = [values (crosstab df)])
  /\ (size (crosstab df) <> 0 -> 0 < values_sum (crosstab df)).
Proof.
  assert (H : df <> [] ->
              snd (chi_square_on_haswiki df) = [values (crosstab df)]).
  { intros Hne. unfold Tester.chi_square_on_haswiki.
    rewrite (nonempty_not_degenerate df Hne).
    destruct (chi2_contingency _) as [[[stat pval] d]|e]; [|reflexivity].
    destruct (0 <? _); [|reflexivity].
    destruct (py_sqrt _); reflexivity. }
  split; [|split; [exact H|]].
  - split; [|now intros ->].
    intros E. destruct df as [|s df]; [reflexivity|].
    rewrite H in E; discriminate.
  - intros Hs. rewrite size_crosstab_zero in Hs.
    rewrite values_sum_crosstab. destruct df; [congruence | simpl; lia].
Qed.


(** X17. The tester has no handler of its own: on a frame with a row, an
    exception of [chi2_contingency] leaves the tester as it is, after the one
    call that raised it. *)
Theorem tester_failures (df : list sample) (e : error) :
  df <> [] ->
  chi2_contingency (values (crosstab df)) = Err e ->
  chi_square_on_haswiki df = (Err e, [values (crosstab df)]).
Proof.
  intros Hne Hf. unfold Tester.chi_square_on_haswiki.
  rewrite (nonempty_not_degenerate df Hne), Hf. reflexivity.
Qed.

(** X18. Under the contract of [chi2_contingency], the tester completes on every
    frame that has a row, whatever its table looks like, and reports the
    square root of the statistic over the number of rows. *)
Theorem nonempty_frame_computable (df : list sample) :
  chi2_contingency_contract chi2_contingency ->
  df <> [] ->
  exists stat pval d,
    chi2_contingency (values (crosstab df)) = Ok (stat, pval, d)
    /\ (0 <= stat)%R
    /\ chi_square_on_haswiki df
       = (Ok {| chi2 := stat; p := pval; dof := d;
                phi := Finite
                         (sqrt (stat / IZR (Z.of_nat (List.length df)))) |},
          [values (crosstab df)]).
Proof.
  intros Hcontract Hne.
  destruct (Hcontract (values (crosstab df)))
    as (stat & pval & d & Hf & Hstat).
  - apply cells_nonneg.
  - apply row_sums_pos.
  - apply col_sums_pos.
  - now apply total_pos.
  - exists stat, pval, d. split; [exact Hf|]. split; [exact Hstat|].
    now apply chi_square_on_haswiki_nonempty.
Qed.

End WithScipy.


Lemma tester_failures_witness :
  chi_square_on_haswiki always_failing demo_frame
  = (Err ValueError, [values (crosstab demo_frame)]).
Proof.
  apply (tester_failures always_failing demo_frame ValueError).
  - discriminate.
  - reflexivity.
Defined.

Example failure_demo :
  chi_square_on_haswiki always_failing demo_frame
  = (Err ValueError, [[[1; 0]; [1; 1]]]).
Proof. reflexivity. Qed.

Lemma nonempty_frame_computable_witness :
  exists stat pval d,
    pearson_contingency constant_sf (values (crosstab [mkSample 1 1]))
    = Ok (stat, pval, d)
    /\ (0 <= stat)%R
    /\ chi_square_on_haswiki (pearson_contingency constant_sf) [mkSample 1 1]
       = (Ok {| chi2 := stat; p := pval; dof := d;
                phi := Finite
                         (sqrt (stat
                                / IZR (Z.of_nat (List.length [mkSample 1 1])))) |},
          [values (crosstab [mkSample 1 1])]).
Proof.
  apply (nonempty_frame_computable (pearson_contingency constant_sf)
           [mkSample 1 1]).
  - apply pearson_contingency_contract.
  - discriminate.
Defined.

End TesterMore.

(* ================================================================== *)
(** * The summarizer: properties *)
(* ================================================================== *)

Module SummaryFacts.
Import PyStr PyStrFacts Labeler LabelerFacts LabelerMore Summary.
Local Open Scope list_scope.

(** ** Grouping *)

Section GroupBy.

Variable K : Type.
Variable eqb : K -> K -> bool.
Variable ltb : K -> K -> bool.
Hypothesis eqb_spec : forall x y, eqb x y = true <-> x = y.

Lemma eqb_refl (x : K) : eqb x x = true.
Proof. now apply eqb_spec. Qed.

Lemma existsb_eqb (k : K) (keys : list K) :
  existsb (eqb k) keys = true <-> In k keys.
Proof.
  rewrite existsb_exists. split.
  - intros (y & Hy & E). apply eqb_spec in E. now subst.
  - intros H. exists k. split; [exact H | apply eqb_refl].
Qed.

Lemma add_key_In (keys : list K) (k x : K) :
  In x (add_key eqb keys k) <-> In x keys \/ x = k.
Proof.
  unfold add_key. destruct (existsb (eqb k) keys) eqn:E.
  - apply existsb_eqb in E. split; [tauto|]. intros [H| ->]; assumption.
  - rewrite in_app_iff. simpl. intuition (subst; auto).
Qed.

Lemma add_key_NoDup (keys : list K) (k : K) :
  NoDup keys -> NoDup (add_key eqb keys k).
Proof.
  intros H. unfold add_key. destruct (existsb (eqb k) keys) eqn:E; [exact H|].
  assert (N : ~ In k keys).
  { intros Hin. apply existsb_eqb in Hin. congruence. }
  apply NoDup_rev in H. rewrite <- (rev_involutive (keys ++ [k])).
  apply NoDup_rev. rewrite rev_app_distr. simpl. constructor; [|exact H].
  now rewrite <- in_rev.
Qed.

Lemma unique_In (l : list K) (x : K) : In x (unique eqb l) <-> In x l.
Proof.
  unfold unique.
  assert (G : forall acc, In x (fold_left (add_key eqb) l acc)
                          <-> In x acc \/ In x l).
  { induction l as [|k l IH]; intros acc; simpl; [tauto|].
    rewrite IH, add_key_In. intuition (subst; auto). }
  rewrite G. simpl. tauto.
Qed.

Lemma unique_NoDup (l : list K) : NoDup (unique eqb l).
Proof.
  unfold unique.
  assert (G : forall acc, NoDup acc -> NoDup (fold_left (add_key eqb) l acc)).
  { induction l as [|k l IH]; intros acc H; simpl; [exact H|].
    apply IH. now apply add_key_NoDup. }
  apply G. constructor.
Qed.

Lemma insert_key_perm (k : K) (l : list K) :
  Permutation (insert_key ltb k l) (k :: l).
Proof.
  induction l as [|y l IH]; simpl; [reflexivity|].
  destruct (ltb y k); [|reflexivity].
  rewrite IH. apply perm_swap.
Qed.

Lemma sort_keys_perm (l : list K) : Permutation (sort_keys ltb l) l.
Proof.
  induction l as [|x l IH]; simpl; [reflexivity|].
  rewrite insert_key_perm. now constructor.
Qed.

Variable key : row -> K.

Lemma group_keys_In (df : list row) (k : K) :
  In k (group_keys eqb ltb key df) <-> exists r, In r df /\ key r = k.
Proof.
  unfold group_keys. split.
  - intros H. apply (Permutation_in _ (sort_keys_perm _)) in H.
    apply unique_In, in_map_iff in H. destruct H as (r & E & Hr).
    exists r; auto.
  - intros (r & Hr & E).
    apply (Permutation_in _ (Permutation_sym (sort_keys_perm _))).
    apply unique_In, in_map_iff. exists r; auto.
Qed.

Lemma group_keys_NoDup (df : list row) : NoDup (group_keys eqb ltb key df).
Proof.
  unfold group_keys.
  apply (Permutation_NoDup (Permutation_sym (sort_keys_perm _))).
  apply unique_NoDup.
Qed.

(** ** Sums over the groups *)

Lemma msum_group_cons (m : row -> Z) (r : row) (df : list row) (k : K) :
  msum m (group eqb key (r :: df) k)
  = ((if eqb (key r) k then m r else 0) + msum m (group eqb key df k))%Z.
Proof.
  unfold group, msum. simpl. destruct (eqb (key r) k); simpl; lia.
Qed.

Lemma zsum_add {A} (f g : A -> Z) (l : list A) :
  fold_right Z.add 0%Z (map (fun x => (f x + g x)%Z) l)
  = (fold_right Z.add 0%Z (map f l) + fold_right Z.add 0%Z (map g l))%Z.
Proof. induction l as [|x l IH]; simpl; lia. Qed.

Lemma zsum_zero {A} (f : A -> Z) (l : list A) :
  (forall x, In x l -> f x = 0%Z) -> fold_right Z.add 0%Z (map f l) = 0%Z.
Proof.
  induction l as [|x l IH]; intros H; simpl; [reflexivity|].
  rewrite (H x) by now left. rewrite IH; [reflexivity|].
  intros y Hy. apply H. now right.
Qed.

Lemma zsum_single (keys : list K) (a : K) (v : Z) :
  NoDup keys -> In a keys ->
  fold_right Z.add 0%Z (map (fun k => if eqb a k then v else 0%Z) keys) = v.
Proof.
  induction 1 as [|y l Hy Hl IH]; intros Hin; [destruct Hin|].
  simpl. destruct Hin as [->|Hin].
  - rewrite eqb_refl. rewrite zsum_zero; [lia|].
    intros x Hx. destruct (eqb a x) eqn:E; [|reflexivity].
    apply eqb_spec in E. subst. contradiction.
  - rewrite (IH Hin). destruct (eqb a y) eqn:E; [|lia].
    apply eqb_spec in E. subst. contradiction.
Qed.

(** Over distinct keys that cover the frame, the groups split any sum over
    the rows. *)
Lemma msum_groups (m : row -> Z) (keys : list K) (df : list row) :
  NoDup keys ->
  (forall r, In r df -> In (key r) keys) ->
  fold_right Z.add 0%Z (map (fun k => msum m (group eqb key df k)) keys)
  = msum m df.
Proof.
  intros Hk. induction df as [|r df IH]; intros Hc.
  - apply zsum_zero. reflexivity.
  - rewrite (map_ext _ (fun k =>
               ((if eqb (key r) k then m r else 0)
                + msum m (group eqb key df k))%Z))
      by (intros k; apply msum_group_cons).
    rewrite zsum_add, IH by (intros r0 H0; apply Hc; now right).
    rewrite zsum_single; [reflexivity | exact Hk | apply Hc; now left].
Qed.

End GroupBy.

(** ** The three columns as sums over rows *)

Lemma count_prompts_msum (g : list row) :
  count_prompts g = msum (fun _ => 1%Z) g.
Proof.
  unfold count_prompts, msum. induction g as [|r g IH]; [reflexivity|].
  cbn [List.length map fold_right]. rewrite <- IH. lia.
Qed.

Lemma count_nonempty_msum (g : list row) :
  count_nonempty g = msum nonempty_bit g.
Proof.
  unfold count_nonempty, msum, nonempty_bit.
  induction g as [|r g IH]; [reflexivity|].
  cbn [filter map fold_right]. rewrite <- IH.
  destruct (ResponseEmpty r); cbn [negb List.length]; lia.
Qed.

Lemma sum_mentions_msum (g : list row) : sum_mentions g = msum Mentioned g.
Proof. reflexivity. Qed.

Lemma msum_le (m1 m2 : row -> Z) (g : list row) :
  (forall r, In r g -> (m1 r <= m2 r)%Z) -> (msum m1 g <= msum m2 g)%Z.
Proof.
  unfold msum. induction g as [|r g IH]; intros H; simpl; [lia|].
  assert (m1 r <= m2 r)%Z by (apply H; now left).
  assert (fold_right Z.add 0%Z (map m1 g)
          <= fold_right Z.add 0%Z (map m2 g))%Z
    by (apply IH; intros y Hy; apply H; now right).
  lia.
Qed.

Lemma rate_bounds (m n : Z) :
  (0 <= m <= n)%Z ->
  (0 <= rate m n <= 1)%R /\ (n = 0%Z -> rate m n = 0%R).
Proof.
  intros [H0 H1]. unfold rate. destruct (0 <? n)%Z eqn:E.
  - apply Z.ltb_lt in E. split; [|lia].
    apply IZR_le in H0, H1. apply IZR_lt in E.
    split.
    + unfold Rdiv. apply Rmult_le_pos; [exact H0|].
      left. now apply Rinv_0_lt_compat.
    + apply (Rmult_le_reg_r (IZR n)); [exact E|].
      unfold Rdiv. rewrite Rmult_assoc, Rinv_l by lra. lra.
  - split; [lra | reflexivity].
Qed.

(** A labelled row is flagged only if its response is not empty. *)
Lemma labelled_bits (raw : list raw_row) (r : row) :
  In r (label_mentions raw) ->
  (0 <= Mentioned r <= nonempty_bit r)%Z /\ (nonempty_bit r <= 1)%Z.
Proof.
  unfold label_mentions. intros H. apply in_map_iff in H.
  destruct H as (x & <- & _). unfold nonempty_bit, label_row, np_where_zero.
  cbn [Mentioned ResponseEmpty]. unfold mention_lambda.
  destruct (response_empty _); [lia|]. destruct (contains _ _); lia.
Qed.

Section Tables.

Variable K : Type.
Variable eqb : K -> K -> bool.
Variable ltb : K -> K -> bool.
Hypothesis eqb_spec : forall x y, eqb x y = true <-> x = y.
Variable key : row -> K.

Lemma table_row_bounds (raw : list raw_row) (s : summary_row K) :
  In s (summary_table eqb ltb key (label_mentions raw)) ->
  (1 <= prompts s)%Z
  /\ (0 <= mentions s <= responses_nonempty s)%Z
  /\ (responses_nonempty s <= prompts s)%Z
  /\ (0 <= mention_rate s <= 1)%R
  /\ (responses_nonempty s = 0%Z -> mention_rate s = 0%R).
Proof.
  unfold summary_table. intros H. apply in_map_iff in H.
  destruct H as (k & <- & Hk). unfold aggregate.
  cbn [prompts mentions responses_nonempty mention_rate].
  set (g := group eqb key (label_mentions raw) k).
  assert (Hg : forall r, In r g -> In r (label_mentions raw)).
  { intros r Hr. unfold g, group in Hr. now apply filter_In in Hr. }
  assert (H1 : (0 <= sum_mentions g <= count_nonempty g)%Z).
  { rewrite sum_mentions_msum, count_nonempty_msum. split.
    - rewrite <- (zsum_zero (fun _ : row => 0%Z) g (fun _ _ => eq_refl)).
      apply (msum_le (fun _ => 0%Z)). intros r Hr.
      now apply (labelled_bits raw), Hg.
    - apply msum_le. intros r Hr. now apply (labelled_bits raw), Hg. }
  assert (H2 : (count_nonempty g <= count_prompts g)%Z).
  { rewrite count_nonempty_msum, count_prompts_msum.
    apply msum_le. intros r Hr. now apply (labelled_bits raw), Hg. }
  assert (H3 : (1 <= count_prompts g)%Z).
  { apply (group_keys_In K eqb ltb eqb_spec key) in Hk.
    destruct Hk as (r & Hr & E).
    assert (Hin : In r g).
    { unfold g, group. apply filter_In. split; [exact Hr|].
      now apply eqb_spec. }
    unfold count_prompts. destruct g; [destruct Hin | simpl; lia]. }
  pose proof (rate_bounds _ _ H1) as [R1 R2]. tauto.
Qed.

End Tables.

Lemma pair_eqb_spec (a b : string * string) : pair_eqb a b = true <-> a = b.
Proof.
  destruct a as [a1 a2], b as [b1 b2]. unfold pair_eqb. cbn [fst snd].
  rewrite andb_true_iff, !String.eqb_eq. split.
  - intros [-> ->]. reflexivity.
  - intros [= -> ->]. auto.
Qed.

(** ** The properties *)

(** X19. On a frame that comes from the labeler, every row of both summary
    tables describes a group that is not empty, with
    [0 <= mentions <= responses_nonempty <= prompts]; so its rate lies
    between 0 and 1, and it is 0 for a group without any response. *)
Theorem summary_rates_bounded (raw : list raw_row) :
  (forall s, In s (fst (summarize (label_mentions raw))) ->
     (1 <= prompts s)%Z
     /\ (0 <= mentions s <= responses_nonempty s)%Z
     /\ (responses_nonempty s <= prompts s)%Z
     /\ (0 <= mention_rate s <= 1)%R
     /\ (responses_nonempty s = 0%Z -> mention_rate s = 0%R))
  /\ (forall s, In s (snd (summarize (label_mentions raw))) ->
        (1 <= prompts s)%Z
        /\ (0 <= mentions s <= responses_nonempty s)%Z
        /\ (responses_nonempty s <= prompts s)%Z
        /\ (0 <= mention_rate s <= 1)%R
        /\ (responses_nonempty s = 0%Z -> mention_rate s = 0%R)).
Proof.
  split; intros s Hs.
  - exact (table_row_bounds _ pair_eqb pair_ltb pair_eqb_spec _ raw s Hs).
  - exact (table_row_bounds _ String.eqb String.ltb String.eqb_eq _ raw s Hs).
Qed.

Lemma zsum_filter {A} (Q : A -> bool) (F : A -> Z) (l : list A) :
  fold_right Z.add 0%Z (map F (filter Q l))
  = fold_right Z.add 0%Z (map (fun x => if Q x then F x else 0%Z) l).
Proof.
  induction l as [|x l IH]; simpl; [reflexivity|].
  destruct (Q x); simpl; rewrite IH; reflexivity.
Qed.

Lemma filter_map_comm {A B} (f : A -> B) (Q : B -> bool) (l : list A) :
  filter Q (map f l) = map f (filter (fun x => Q (f x)) l).
Proof.
  induction l as [|x l IH]; simpl; [reflexivity|].
  destruct (Q (f x)); simpl; now rewrite IH.
Qed.

(** The brand groups of one category, cut out of the frame or out of the
    rows of that category, are the same; those of another category are
    empty. *)
Lemma brand_group_in_category (m : row -> Z) (df : list row) (c : string)
    (k : string * string) :
  msum m (group pair_eqb (fun r => (Category r, Brand r))
            (group String.eqb Category df c) k)
  = if String.eqb (fst k) c
    then msum m (group pair_eqb (fun r => (Category r, Brand r)) df k)
    else 0%Z.
Proof.
  destruct k as [kc kb]. cbn [fst]. unfold group, msum, pair_eqb.
  cbn [fst snd].
  destruct (String.eqb kc c) eqn:E3.
  - apply String.eqb_eq in E3. subst kc.
    induction df as [|r df IH]; [reflexivity|]. cbn [filter].
    destruct (String.eqb (Category r) c) eqn:E1.
    + cbn [filter]. rewrite E1. cbn [andb].
      destruct (String.eqb (Brand r) kb); cbn [map fold_right];
        now rewrite IH.
    + cbn [andb]. exact IH.
  - induction df as [|r df IH]; [reflexivity|]. cbn [filter].
    destruct (String.eqb (Category r) c) eqn:E1; [|exact IH].
    cbn [filter].
    replace (String.eqb (Category r) kc) with false; [exact IH|].
    symmetry. apply String.eqb_neq. apply String.eqb_eq in E1.
    apply String.eqb_neq in E3. congruence.
Qed.

Lemma category_column (m : row -> Z) (df : list row) (c : string) :
  fold_right Z.add 0%Z
    (map (fun k => msum m (group pair_eqb (fun r => (Category r, Brand r))
                             df k))
       (filter (fun k => String.eqb (fst k) c)
          (group_keys pair_eqb pair_ltb (fun r => (Category r, Brand r)) df)))
  = msum m (group String.eqb Category df c).
Proof.
  rewrite zsum_filter.
  rewrite (map_ext _ (fun k =>
             msum m (group pair_eqb (fun r => (Category r, Brand r))
                       (group String.eqb Category df c) k)))
    by (intros k; symmetry; apply brand_group_in_category).
  apply (msum_groups _ pair_eqb pair_eqb_spec).
  - apply (group_keys_NoDup _ pair_eqb pair_ltb pair_eqb_spec).
  - intros r Hr. apply (group_keys_In _ pair_eqb pair_ltb pair_eqb_spec).
    exists r. split; [|reflexivity]. unfold group in Hr.
    now apply filter_In in Hr.
Qed.

(** X21. The two tables agree: the counts of a category are the sums of the
    counts of its brands. *)
Theorem category_sums_its_brands (df : list row) (s : summary_row string) :
  In s (snd (summarize df)) ->
  let brands :=
    filter (fun b => String.eqb (fst (group_key b)) (group_key s))
      (fst (summarize df)) in
  prompts s = fold_right Z.add 0%Z (map prompts brands)
  /\ responses_nonempty s
     = fold_right Z.add 0%Z (map responses_nonempty brands)
  /\ mentions s = fold_right Z.add 0%Z (map mentions brands).
Proof.
  cbn [fst snd summarize]. unfold by_cat, by_brand, summary_table.
  intros H. apply in_map_iff in H. destruct H as (c & <- & _).
  cbv zeta. cbn [aggregate group_key prompts responses_nonempty mentions].
  rewrite (filter_map_comm
             (aggregate pair_eqb (fun r => (Category r, Brand r)) df)).
  cbn [aggregate group_key]. rewrite !map_map.
  cbn [prompts responses_nonempty mentions].
  split; [|split].
  - rewrite (map_ext _ (fun k => msum (fun _ => 1%Z)
               (group pair_eqb (fun r => (Category r, Brand r)) df k)))
      by (intros k; apply count_prompts_msum).
    now rewrite category_column, <- count_prompts_msum.
  - rewrite (map_ext _ (fun k => msum nonempty_bit
               (group pair_eqb (fun r => (Category r, Brand r)) df k)))
      by (intros k; apply count_nonempty_msum).
    now rewrite category_column, <- count_nonempty_msum.
  - symmetry. exact (category_column Mentioned df c).
Qed.

Lemma category_sums_its_brands_witness :
  let s := mkSummary "Laptop" 3%Z 3%Z 2%Z (2 / 3)%R in
  let brands :=
    filter (fun b => String.eqb (fst (group_key b)) (group_key s))
      (fst (summarize summary_demo)) in
  prompts s = fold_right Z.add 0%Z (map prompts brands)
  /\ responses_nonempty s
     = fold_right Z.add 0%Z (map responses_nonempty brands)
  /\ mentions s = fold_right Z.add 0%Z (map mentions brands).
Proof.
  apply (category_sums_its_brands summary_demo
           (mkSummary "Laptop" 3%Z 3%Z 2%Z (2 / 3)%R)).
  cbn [snd summarize]. unfold by_cat, summary_table.
  replace (group_keys String.eqb String.ltb Category summary_demo)
    with ["Headset"; "Laptop"] by (vm_compute; reflexivity).
  right; left. unfold aggregate.
  replace (group String.eqb Category summary_demo "Laptop")
    with (firstn 3 summary_demo) by (vm_compute; reflexivity).
  replace (count_prompts (firstn 3 summary_demo)) with 3%Z
    by (vm_compute; reflexivity).
  replace (count_nonempty (firstn 3 summary_demo)) with 3%Z
    by (vm_compute; reflexivity).
  replace (sum_mentions (firstn 3 summary_demo)) with 2%Z
    by (vm_compute; reflexivity).
  reflexivity.
Defined.

End SummaryFacts.

(* ================================================================== *)
(** * Wikipedia flags for a frame: properties *)
(* ================================================================== *)

Module FlagsFacts.
Import PyStr PyStrFacts Labeler Resolver ResolverFacts Observe ResolverMore.
Import Flags.
Local Open Scope list_scope.

(** ** The order of strings *)

Lemma ltb_lt (a b : string) :
  String.ltb a b = true <-> OrderedTypeEx.String_as_OT.lt a b.
Proof.
  rewrite <- OrderedTypeEx.String_as_OT.cmp_lt.
  unfold String.ltb, OrderedTypeEx.String_as_OT.cmp.
  destruct (String.compare a b); split; congruence.
Qed.

Lemma ltb_trans (a b c : string) :
  String.ltb a b = true -> String.ltb b c = true -> String.ltb a c = true.
Proof.
  rewrite !ltb_lt. apply OrderedTypeEx.String_as_OT.lt_trans.
Qed.

Lemma ltb_irrefl (a : string) : String.ltb a a = false.
Proof.
  destruct (String.ltb a a) eqn:E; [|reflexivity].
  apply ltb_lt in E. apply OrderedTypeEx.String_as_OT.lt_not_eq in E.
  now elim E.
Qed.

Lemma ltb_trichotomy (a b : string) :
  String.ltb a b = false -> String.ltb b a = false -> a = b.
Proof.
  unfold String.ltb. rewrite (String.compare_antisym b a).
  destruct (String.compare a b) eqn:E; simpl; try discriminate.
  intros _ _. now apply String.compare_eq_iff.
Qed.

Lemma ltb_asym (a b : string) :
  String.ltb a b = true -> String.ltb b a = false.
Proof.
  intros H. destruct (String.ltb b a) eqn:E; [|reflexivity].
  pose proof (ltb_trans _ _ _ H E) as C. rewrite ltb_irrefl in C.
  discriminate.
Qed.

Lemma not_after_trans (a b c : string) :
  not_after a b -> not_after b c -> not_after a c.
Proof.
  unfold not_after. intros H1 H2.
  destruct (String.ltb c a) eqn:E; [|reflexivity].
  destruct (String.ltb a b) eqn:E3.
  - rewrite (ltb_trans _ _ _ E E3) in H2. discriminate.
  - pose proof (ltb_trichotomy _ _ E3 H1). subst b. congruence.
Qed.

Lemma insert_str_perm (x : string) (l : list string) :
  Permutation (insert_str x l) (x :: l).
Proof.
  induction l as [|y l IH]; simpl; [reflexivity|].
  destruct (String.ltb y x); [|reflexivity].
  rewrite IH. apply perm_swap.
Qed.

Lemma sorted_str_perm (l : list string) : Permutation (sorted_str l) l.
Proof.
  induction l as [|x l IH]; simpl; [reflexivity|].
  rewrite insert_str_perm. now constructor.
Qed.

Lemma insert_str_sorted (x : string) (l : list string) :
  StronglySorted not_after l -> StronglySorted not_after (insert_str x l).
Proof.
  induction 1 as [|y l Hs IH Hy]; simpl.
  - repeat constructor.
  - destruct (String.ltb y x) eqn:E.
    + constructor; [exact IH|].
      eapply Permutation_Forall; [symmetry; apply insert_str_perm|].
      constructor; [now apply ltb_asym | exact Hy].
    + constructor; [now constructor|].
      constructor; [exact E|].
      eapply Forall_impl; [|exact Hy].
      intros z Hz. eapply not_after_trans; eauto.
Qed.

Lemma sorted_str_sorted (l : list string) :
  StronglySorted not_after (sorted_str l).
Proof.
  induction l as [|x l IH]; simpl; [constructor|].
  now apply insert_str_sorted.
Qed.

Lemma sorted_strict (l : list string) :
  StronglySorted not_after l -> NoDup l ->
  StronglySorted (fun a b => String.ltb a b = true) l.
Proof.
  induction 1 as [|y l Hs IH Hy]; intros Hn; [constructor|].
  inversion Hn as [|? ? Hnin Hn']; subst.
  constructor; [now apply IH|].
  rewrite Forall_forall in *. intros z Hz.
  destruct (String.ltb y z) eqn:E; [reflexivity|].
  pose proof (ltb_trichotomy _ _ E (Hy _ Hz)). subst. contradiction.
Qed.

(** The brands to look up: every brand of the frame, once, in strictly
    ascending order. *)
Lemma brands_of_spec (df : list row) :
  StronglySorted (fun a b => String.ltb a b = true) (brands_of df)
  /\ NoDup (brands_of df)
  /\ (forall b, In b (brands_of df) <-> exists r, In r df /\ Brand r = b)
  /\ (List.length (brands_of df) <= List.length df)%nat.
Proof.
  unfold brands_of.
  assert (Hn : NoDup (sorted_str (dict_fromkeys (map Brand df)))).
  { apply (Permutation_NoDup (Permutation_sym (sorted_str_perm _))).
    apply dict_fromkeys_NoDup. }
  split; [apply sorted_strict; [apply sorted_str_sorted | exact Hn]|].
  split; [exact Hn|]. split.
  - intros b. split.
    + intros H. apply (Permutation_in _ (sorted_str_perm _)) in H.
      apply dict_fromkeys_In, in_map_iff in H.
      destruct H as (r & E & Hr). exists r; auto.
    + intros (r & Hr & E).
      apply (Permutation_in _ (Permutation_sym (sorted_str_perm _))).
      apply dict_fromkeys_In, in_map_iff. exists r; auto.
  - rewrite (Permutation_length (sorted_str_perm _)).
    rewrite <- (length_map Brand df).
    apply NoDup_incl_length; [apply dict_fromkeys_NoDup|].
    intros x Hx. now apply dict_fromkeys_In.
Qed.

(** ** The dictionaries *)

Lemma dict_set_fresh {V} (d : list (string * V)) (k : string) (v : V) :
  ~ In k (map fst d) -> dict_set d k v = d ++ [(k, v)].
Proof.
  induction d as [|[k' v'] d IH]; intros H; simpl; [reflexivity|].
  destruct (String.eqb k' k) eqn:E.
  - apply String.eqb_eq in E. subst. elim H. now left.
  - rewrite IH; [reflexivity|]. intros Hin. apply H. now right.
Qed.

Lemma dict_lookup_lines {V} (f : string * Z * option string -> V)
    (lines : list (string * Z * option string))
    (l : string * Z * option string) :
  NoDup (map line_brand lines) -> In l lines ->
  dict_lookup (map (fun x => (line_brand x, f x)) lines) (line_brand l)
  = Some (f l).
Proof.
  induction lines as [|x lines IH]; intros Hn Hin; [destruct Hin|].
  cbn [map dict_lookup]. inversion Hn as [|? ? Hx Hn']; subst.
  destruct Hin as [->|Hin].
  - now rewrite String.eqb_refl.
  - destruct (String.eqb (line_brand x) (line_brand l)) eqn:E.
    + apply String.eqb_eq in E. elim Hx. rewrite E. now apply in_map.
    + now apply IH.
Qed.

Section WithService.

Variable World : Type.
Variable wiki_page : string -> World -> outcome string * World.
Variable wiki_search : string -> World -> outcome (list string) * World.

Local Abbreviation has_wikipedia_page :=
  (Resolver.has_wikipedia_page World wiki_page wiki_search).
Local Abbreviation lookup_brands :=
  (Flags.lookup_brands World wiki_page wiki_search).
Local Abbreviation compute_haswiki_flags :=
  (Flags.compute_haswiki_flags World wiki_page wiki_search).

Lemma lookup_brands_spec (brands : list string) (st : lookups) (w : World) :
  NoDup brands ->
  (forall b, In b brands -> ~ In b (map line_brand (printed st))) ->
  dicts_follow st -> lines_ok st ->
  exists st' w' evs,
    lookup_brands brands st w = (Ret st', w', evs)
    /\ dicts_follow st' /\ lines_ok st'
    /\ map line_brand (printed st') = map line_brand (printed st) ++ brands
    /\ (List.length evs <= 18 * List.length brands)%nat.
Proof.
  revert st w; induction brands as [|b rest IH]; intros st w Hn Hfresh Hd Hl.
  - exists st, w, []. rewrite app_nil_r. repeat split; auto; apply Hd.
  - inversion Hn as [|? ? Hb Hn']; subst.
    cbn [Flags.lookup_brands]. unfold bind.
    destruct (has_wikipedia_page_observed World wiki_page wiki_search b w)
      as (r & w1 & pre & post & E & L1 & L2 & _).
    rewrite E.
    pose proof (titles_to_try_short b) as [[_ Lt] _].
    set (has := fst (resolution_of r)). set (title := snd (resolution_of r)).
    replace (resolution_of r) with (has, title)
      by (symmetry; apply surjective_pairing).
    set (st1 := {| wiki_flag := dict_set (wiki_flag st) b has;
                   wiki_title := dict_set (wiki_title st) b title;
                   printed := printed st ++ [(b, has, title)] |}).
    assert (Hfb : ~ In b (map line_brand (printed st)))
      by (apply Hfresh; now left).
    assert (Hd1 : dicts_follow st1).
    { destruct Hd as [Hd1 Hd2]. unfold dicts_follow, st1.
      cbn [wiki_flag wiki_title printed]. rewrite !map_app. cbn [map].
      split.
      - rewrite dict_set_fresh; [now rewrite Hd1|].
        rewrite Hd1, map_map. exact Hfb.
      - rewrite dict_set_fresh; [now rewrite Hd2|].
        rewrite Hd2, map_map. exact Hfb. }
    assert (Hl1 : lines_ok st1).
    { intros l Hin. unfold st1 in Hin. cbn [printed] in Hin.
      apply in_app_or in Hin. destruct Hin as [Hin|[<-|[]]]; [now apply Hl|].
      cbn [fst snd]. unfold has, title, flag_matches_title.
      destruct r as [ttl|]; cbn; [right | left]; eauto. }
    destruct (IH st1 w1 Hn') as (st' & w' & evs & E' & Hd' & Hl' & Hp & Le);
      auto.
    { intros b' Hb' Hin. unfold st1 in Hin. cbn [printed] in Hin.
      rewrite map_app in Hin. apply in_app_or in Hin.
      destruct Hin as [Hin|[<-|[]]].
      - apply (Hfresh b'); [now right | exact Hin].
      - contradiction. }
    rewrite E'. exists st', w', ((pre ++ post) ++ evs).
    split; [reflexivity|]. split; [exact Hd'|]. split; [exact Hl'|]. split.
    + rewrite Hp. unfold st1. cbn [printed]. rewrite map_app.
      cbn [map line_brand fst]. now rewrite <- app_assoc.
    + rewrite !length_app. cbn [List.length]. lia.
Qed.

(** The run of [compute_haswiki_flags], all at once. *)
Lemma compute_haswiki_flags_spec (df : list row) (w : World) :
  exists st w' evs,
    compute_haswiki_flags df w
    = (Ret (map (fun r => {| labelled := r;
                             HasWiki := flag_of st (Brand r);
                             WikiTitle := title_of st (Brand r) |}) df,
            printed st), w', evs)
    /\ dicts_follow st /\ lines_ok st
    /\ map line_brand (printed st) = brands_of df
    /\ (List.length evs <= 18 * List.length (brands_of df))%nat.
Proof.
  unfold Flags.compute_haswiki_flags, bind.
  destruct (brands_of_spec df) as (_ & Hn & _ & _).
  destruct (lookup_brands_spec (brands_of df) no_lookups w Hn)
    as (st & w' & evs & E & Hd & Hl & Hp & Le).
  - intros b _ [].
  - split; reflexivity.
  - intros l [].
  - rewrite E. exists st, w', (evs ++ []). cbn [ret log_before].
    split; [reflexivity|]. rewrite app_nil_r. auto.
Qed.

Lemma row_follows_line (st : lookups) (l : string * Z * option string) :
  dicts_follow st -> NoDup (map line_brand (printed st)) ->
  In l (printed st) ->
  flag_of st (line_brand l) = snd (fst l)
  /\ title_of st (line_brand l) = snd l.
Proof.
  intros [Hd1 Hd2] Hn Hin. unfold flag_of, title_of. rewrite Hd1, Hd2.
  rewrite (dict_lookup_lines (fun l => snd (fst l)) _ l Hn Hin).
  rewrite (dict_lookup_lines (fun l => snd l) _ l Hn Hin). auto.
Qed.

(** X22. [compute_haswiki_flags] never raises.  It returns the rows of the frame
    in their order, each with a flag and a title that go together (0 and no
    title, or 1 and a title); rows of the same brand get the same flag and
    the same title, whatever the service answers from one request to the
    next; and it sends at most eighteen requests per distinct brand. *)
Theorem haswiki_flags_well_formed (df : list row) (w : World) :
  exists out lines w' evs,
    compute_haswiki_flags df w = (Ret (out, lines), w', evs)
    /\ map labelled out = df
    /\ (forall r, In r out -> flag_matches_title (HasWiki r) (WikiTitle r))
    /\ (forall r1 r2, In r1 out -> In r2 out ->
          Brand (labelled r1) = Brand (labelled r2) ->
          HasWiki r1 = HasWiki r2 /\ WikiTitle r1 = WikiTitle r2)
    /\ (List.length evs <= 18 * List.length (brands_of df))%nat
    /\ (List.length (brands_of df) <= List.length df)%nat.
Proof.
  destruct (compute_haswiki_flags_spec df w)
    as (st & w' & evs & E & Hd & Hl & Hp & Le).
  destruct (brands_of_spec df) as (_ & Hn & Hin & Hlen).
  eexists _, _, w', evs. split; [exact E|].
  split; [rewrite map_map; cbn [labelled]; apply map_id|].
  split; [|split; [|split; [exact Le | exact Hlen]]].
  - intros r Hr. apply in_map_iff in Hr. destruct Hr as (x & <- & Hx).
    cbn [HasWiki WikiTitle].
    assert (Hb : In (Brand x) (map line_brand (printed st))).
    { rewrite Hp. apply Hin. exists x; auto. }
    apply in_map_iff in Hb. destruct Hb as (l & El & Hl').
    rewrite <- Hp in Hn.
    destruct (row_follows_line st l Hd Hn Hl') as [F T].
    rewrite <- El, F, T. now apply Hl.
  - intros r1 r2 H1 H2. apply in_map_iff in H1, H2.
    destruct H1 as (x1 & <- & _), H2 as (x2 & <- & _).
    cbn [labelled HasWiki WikiTitle]. intros ->. auto.
Qed.

(** X23. The brands are looked up one after the other in strictly ascending
    order, each brand of the frame once and no other; and every row carries
    the flag and the title printed for its brand, so the default 0 of
    [fillna] is never used. *)
Theorem brands_looked_up_once (df : list row) (w : World) :
  exists out lines w' evs,
    compute_haswiki_flags df w = (Ret (out, lines), w', evs)
    /\ StronglySorted (fun a b => String.ltb a b = true)
         (map line_brand lines)
    /\ (forall b, In b (map line_brand lines)
                  <-> exists r, In r df /\ Brand r = b)
    /\ (forall r, In r out ->
          In (Brand (labelled r), HasWiki r, WikiTitle r) lines).
Proof.
  destruct (compute_haswiki_flags_spec df w)
    as (st & w' & evs & E & Hd & Hl & Hp & Le).
  destruct (brands_of_spec df) as (Hs & Hn & Hin & _).
  eexists _, _, w', evs. split; [exact E|]. rewrite Hp.
  split; [exact Hs|]. split; [exact Hin|].
  intros r Hr. apply in_map_iff in Hr. destruct Hr as (x & <- & Hx).
  cbn [labelled HasWiki WikiTitle].
  assert (Hb : In (Brand x) (map line_brand (printed st))).
  { rewrite Hp. apply Hin. exists x; auto. }
  apply in_map_iff in Hb. destruct Hb as (l & El & Hl').
  rewrite <- Hp in Hn.
  destruct (row_follows_line st l Hd Hn Hl') as [F T].
  rewrite <- El, F, T. destruct l as [[b h] t]. exact Hl'.
Qed.

End WithService.

End FlagsFacts.

(* ================================================================== *)
(** * The last two steps of [main]: properties *)
(* ================================================================== *)

Module MainFacts.
Import PyStr PyStrFacts Labeler LabelerFacts LabelerMore Resolver.
Import PrepFacts Flags FlagsFacts Main.
Local Open Scope list_scope.

Section WithLibraries.

Variable World : Type.
Variable wiki_page : string -> World -> outcome string * World.
Variable wiki_search : string -> World -> outcome (list string) * World.
Variable chi2_contingency
  : list (list Z) -> Tester.outcome (R * R * Z).

Local Abbreviation flags_then_test :=
  (Main.flags_then_test World wiki_page wiki_search chi2_contingency).

(** X24. On the frame that the labeler returns for a frame with at least one
    row, whatever the encyclopedia answers, and provided [chi2_contingency]
    keeps its contract, the Wikipedia flags and the tester (up to line 206)
    run without an exception: the tester is reached with one sample per row,
    its table is 2 x 2 at most, [chi2_contingency] is called once on it, the
    tester reports what it returns, with [phi] the square root of the
    statistic over the number of rows; and at most eighteen requests per row
    are sent. *)
Theorem flags_then_test_completes (raw : list raw_row) (w : World) :
  Tester.chi2_contingency_contract chi2_contingency ->
  raw <> [] ->
  exists samples stat pval d w' evs,
    List.length samples = List.length raw
    /\ (List.length (Tester.index (Tester.crosstab samples)) <= 2)%nat
    /\ (List.length (Tester.columns (Tester.crosstab samples)) <= 2)%nat
    /\ chi2_contingency (Tester.values (Tester.crosstab samples))
       = Tester.Ok (stat, pval, d)
    /\ (0 <= stat)%R
    /\ flags_then_test (label_mentions raw) w
       = (Ret (Tester.Ok
                 {| Tester.chi2 := stat; Tester.p := pval; Tester.dof := d;
                    Tester.phi :=
                      Tester.Finite
                        (sqrt (stat / IZR (Z.of_nat (List.length raw)))) |},
               [Tester.values (Tester.crosstab samples)]),
          w', evs)
    /\ (List.length evs <= 18 * List.length raw)%nat.
Proof.
  intros Hcontract Hne. unfold Main.flags_then_test, bind.
  set (df := label_mentions raw).
  assert (Hdf : List.length df = List.length raw)
    by (unfold df, label_mentions; apply length_map).
  destruct (compute_haswiki_flags_spec World wiki_page wiki_search df w)
    as (st & w' & evs & E & Hd & Hl & Hp & Le).
  rewrite E. cbn [fst ret log_before]. rewrite app_nil_r.
  set (out := map (fun r => {| labelled := r;
                               HasWiki := flag_of st (Brand r);
                               WikiTitle := title_of st (Brand r) |}) df).
  set (samples := map to_sample out).
  assert (Hlen : List.length samples = List.length raw).
  { unfold samples, out. now rewrite !length_map. }
  assert (Hs : samples <> []).
  { intros E0. rewrite E0 in Hlen. destruct raw; [congruence|discriminate]. }
  destruct (brands_of_spec df) as (_ & Hn & Hin & Hbl).
  assert (Hbin : forall s, In s samples ->
             (Tester.HasWiki s = 0%Z \/ Tester.HasWiki s = 1%Z)
             /\ (Tester.Mentioned s = 0%Z \/ Tester.Mentioned s = 1%Z)).
  { intros s Hs'. unfold samples, out in Hs'. rewrite map_map in Hs'.
    apply in_map_iff in Hs'. destruct Hs' as (x & <- & Hx).
    unfold to_sample. cbn [Tester.HasWiki Tester.Mentioned labelled HasWiki].
    split.
    - assert (Hb : In (Brand x) (map line_brand (printed st))).
      { rewrite Hp. apply Hin. exists x; auto. }
      apply in_map_iff in Hb. destruct Hb as (l & El & Hl').
      rewrite <- Hp in Hn.
      destruct (row_follows_line st l Hd Hn Hl') as [F _].
      rewrite <- El, F. destruct (Hl l Hl') as [[-> _]|[-> _]]; auto.
    - unfold df, label_mentions in Hx. apply in_map_iff in Hx.
      destruct Hx as (r & <- & _). pose proof (Mentioned_range r). lia. }
  destruct (TesterMore.binary_axes samples Hbin) as [B1 B2].
  destruct (Hcontract (Tester.values (Tester.crosstab samples)))
    as (stat & pval & d & Hf & Hstat).
  - apply TesterFacts.cells_nonneg.
  - apply TesterFacts.row_sums_pos.
  - apply TesterFacts.col_sums_pos.
  - now apply TesterFacts.total_pos.
  - exists samples, stat, pval, d, w', evs.
    split; [exact Hlen|]. split; [exact B1|]. split; [exact B2|].
    split; [exact Hf|]. split; [exact Hstat|]. split.
    + rewrite (TesterFacts.chi_square_on_haswiki_nonempty
                 chi2_contingency samples stat pval d Hs Hf Hstat).
      now rewrite Hlen.
    + rewrite Hdf in Hbl. nia.
Qed.

End WithLibraries.

Lemma flags_then_test_completes_witness :
  exists samples stat pval d w' evs,
    List.length samples = 2%nat
    /\ (List.length (Tester.index (Tester.crosstab samples)) <= 2)%nat
    /\ (List.length (Tester.columns (Tester.crosstab samples)) <= 2)%nat
    /\ Tester.pearson_contingency Tester.constant_sf
         (Tester.values (Tester.crosstab samples))
       = Tester.Ok (stat, pval, d)
    /\ (0 <= stat)%R
    /\ Main.flags_then_test nat toy_page toy_search
         (Tester.pearson_contingency Tester.constant_sf)
         (label_mentions
            [mkRaw "Apple" "Laptop" "" (Some "Yes, Apple is great");
             mkRaw "Jabra" "Headset" "" (Some "")]) 0
       = (Ret (Tester.Ok
                 {| Tester.chi2 := stat; Tester.p := pval; Tester.dof := d;
                    Tester.phi :=
                      Tester.Finite (sqrt (stat / IZR (Z.of_nat 2))) |},
               [Tester.values (Tester.crosstab samples)]),
          w', evs)
    /\ (List.length evs <= 18 * 2)%nat.
Proof.
  apply (flags_then_test_completes nat toy_page toy_search
           (Tester.pearson_contingency Tester.constant_sf)
           [mkRaw "Apple" "Laptop" "" (Some "Yes, Apple is great");
            mkRaw "Jabra" "Headset" "" (Some "")] 0).
  - apply TesterFacts.pearson_contingency_contract.
  - discriminate.
Defined.

End MainFacts.

